(** * md-2025-review: the feature normalizer of build-map.js and the row
    builder of convert-points-to-csv.js

    The scripts read one parsed JSON document and walk it with property
    reads, [||], [&&], [typeof] tests and [Array.prototype.forEach].  The
    embedding below keeps that shape: JavaScript values are an inductive
    type, a property read on [null] or [undefined] raises a [TypeError], and
    the [features] / [rows] arrays that the callbacks push to are threaded
    through the loops as explicit state. *)

From Stdlib Require Import Floats.SpecFloat Ascii.
From stdpp Require Import gmap strings list sorting pretty.

Local Open Scope string_scope.
Local Open Scope list_scope.

(** ** JavaScript values and the operators the scripts use *)

Module JS.

(** A number is an IEEE 754 binary64 datum; [typeof] and truthiness are the
    only things the scripts ask of the numbers found in the document. *)
Abbreviation number := spec_float.

Local Unset Elimination Schemes.

Inductive value : Type :=
| VUndef
| VNull
| VBool (b : bool)
| VNum (x : number)
| VStr (s : string)
| VArr (elems : list value)
| VObj (props : gmap string value).

Local Set Elimination Schemes.

Inductive error : Type := TypeError.

Inductive result (A : Type) : Type :=
| Ok (a : A)
| Throw (e : error).
Arguments Ok {A} a.
Arguments Throw {A} e.

(** Sequencing: an exception raised by [r] ends the evaluation. *)
Definition bind {A B : Type} (r : result A) (k : A → result B) : result B :=
  match r with
  | Ok a => k a
  | Throw e => Throw e
  end.

#[global] Instance result_fmap : FMap result := fun _ _ f r =>
  bind r (fun a => Ok (f a)).

(** The number an array index or a loop counter denotes. *)
Definition number_of_nat (n : nat) : number :=
  binary_normalize 53 1024 (Z.of_nat n) 0 false.

(** ToBoolean. *)
Definition truthy (v : value) : bool :=
  match v with
  | VUndef | VNull => false
  | VBool b => b
  | VNum (S754_zero _) | VNum S754_nan => false
  | VNum _ => true
  | VStr s => negb (String.eqb s "")
  | VArr _ | VObj _ => true
  end.

Definition nullish (v : value) : bool :=
  match v with
  | VUndef | VNull => true
  | _ => false
  end.

(** [typeof v === 'number'] *)
Definition typeofNumber (v : value) : bool :=
  match v with
  | VNum _ => true
  | _ => false
  end.

(** [Array.isArray(v)] *)
Definition isArray (v : value) : bool :=
  match v with
  | VArr _ => true
  | _ => false
  end.

(** [v === s] for a string literal [s]. *)
Definition strictEqStr (v : value) (s : string) : bool :=
  match v with
  | VStr t => String.eqb t s
  | _ => false
  end.

(** The value of [v.k] when the read does not raise.  The scripts read
    only the names type, features, missions, portals, location, geometry,
    coordinates, latitude, longitude, lat, lng, title, name, description
    and imageUrl; none of them is defined on a built-in prototype, so the
    read finds an own property of an object or nothing. *)
Definition prop (k : string) (v : value) : value :=
  match v with
  | VObj props => default VUndef (props !! k)
  | _ => VUndef
  end.

(** [v.k]: a [TypeError] on [null] and [undefined]. *)
Definition get (k : string) (v : value) : result value :=
  if nullish v then Throw TypeError else Ok (prop k v).

(** [a[i]] on an array. *)
Definition index (elems : list value) (i : nat) : value :=
  default VUndef (elems !! i).

(** [a || b]: the right operand is evaluated only when the left one is
    falsy. *)
Definition or (a b : result value) : result value :=
  bind a (fun x => if truthy x then Ok x else b).

(** [a && b] in a condition. *)
Definition and (a b : result bool) : result bool :=
  bind a (fun x : bool => if x then b else Ok false).

(** [a.forEach((x, i) => ...)] over an array without holes; the callback
    receives the element, its index and the state it may update. *)
Fixpoint forEach {St : Type} (callback : value → nat → St → result St)
    (elems : list value) (i : nat) (s : St) : result St :=
  match elems with
  | [] => Ok s
  | x :: rest => bind (callback x i s) (forEach callback rest (S i))
  end.

End JS.

Export JS.

Notation "'let*' x ':=' r 'in' k" := (JS.bind r (fun x => k))
  (at level 10, x name, r at level 100, k at level 200).
Notation "'let*' ' p ':=' r 'in' k" := (JS.bind r (fun x => match x with p => k end))
  (at level 10, p pattern, r at level 100, k at level 200).
Infix "<||>" := JS.or (at level 50, left associativity).
Infix "<&&>" := JS.and (at level 40, left associativity).

(** ** build-map.js *)

Module BuildMap.

(** The object literal pushed by both extraction loops. *)
Definition feature (title lng lat : value) : value :=
  VObj {[ "type" := VStr "Feature";
          "properties" := VObj {[ "title" := title ]};
          "geometry" := VObj {[ "type" := VStr "Point";
                                "coordinates" := VArr [lng; lat] ]} ]}.

(** Callback of the flat point list loop. *)
Definition pushPoint (p : value) (_ : nat) (features : list value)
    : result (list value) :=
  let* title := get "title" p <||> get "name" p <||> Ok (VStr "") in
  let* lng := get "lng" p in
  let* lat := get "lat" p in
  Ok (features ++ [feature title lng lat]).

(** The values of [lat] and [lng] after the if / else-if chain of the
    portal callback; both start out [undefined]. *)
Definition portalCoordinates (portal : value) : result (value * value) :=
  let* loc := get "location" portal <||> get "lat" portal <||> get "geometry" portal in
  let* byLatitude := Ok (truthy loc)
                     <&&> (typeofNumber <$> get "latitude" loc)
                     <&&> (typeofNumber <$> get "longitude" loc) in
  if byLatitude : bool then
    let* lat := get "latitude" loc in
    let* lng := get "longitude" loc in
    Ok (lat, lng)
  else
    let* byLat := Ok (truthy loc)
                  <&&> (typeofNumber <$> get "lat" loc)
                  <&&> (typeofNumber <$> get "lng" loc) in
    if byLat : bool then
      let* lat := get "lat" loc in
      let* lng := get "lng" loc in
      Ok (lat, lng)
    else
      let* byGeometry :=
        (truthy <$> get "geometry" portal)
        <&&> (let* geometry := get "geometry" portal in
              let* type := get "type" geometry in
              Ok (strictEqStr type "Point"))
        <&&> (let* geometry := get "geometry" portal in
              isArray <$> get "coordinates" geometry) in
      if byGeometry : bool then
        let* geometry := get "geometry" portal in
        let* coordinates := get "coordinates" geometry in
        match coordinates with
        | VArr cs => Ok (index cs 1, index cs 0)
        | _ => Throw TypeError
        end
      else Ok (VUndef, VUndef).

(** [`Portal ${mi+1}-${pi+1}`] *)
Definition placeholderTitle (mi pi : nat) : string :=
  "Portal " +:+ pretty (mi + 1) +:+ "-" +:+ pretty (pi + 1).

(** Callback of the inner loop over a mission's portals. *)
Definition pushPortal (mi : nat) (portal : value) (pi : nat)
    (features : list value) : result (list value) :=
  let* '(lat, lng) := portalCoordinates portal in
  if typeofNumber lat && typeofNumber lng then
    let* title := get "title" portal <||> Ok (VStr (placeholderTitle mi pi)) in
    Ok (features ++ [feature title lng lat])
  else Ok features.

(** Callback of the outer loop over the missions:
    [(mission.portals || []).forEach(...)].  A truthy value that is not an
    array has no callable [forEach]. *)
Definition pushMission (mission : value) (mi : nat) (features : list value)
    : result (list value) :=
  let* portals := get "portals" mission <||> Ok (VArr []) in
  match portals with
  | VArr ps => forEach (pushPortal mi) ps 0 features
  | _ => Throw TypeError
  end.

(** [json.type === 'FeatureCollection' && Array.isArray(json.features)] *)
Definition isFeatureCollection (json : value) : result bool :=
  ((fun type => strictEqStr type "FeatureCollection") <$> get "type" json)
  <&&> (isArray <$> get "features" json).

(** [Array.isArray(json) && json.length && typeof json[0].lat === 'number'] *)
Definition isPointList (json : value) : result bool :=
  match json with
  | VArr elems =>
      Ok (negb (Nat.eqb (length elems) 0))
      <&&> (typeofNumber <$> get "lat" (index elems 0))
  | _ => Ok false
  end.

Definition extractFeatures (json : value) : result (list value) :=
  let features : list value := [] in
  if negb (truthy json) then Ok features else
  let* collection := isFeatureCollection json in
  if collection : bool then
    let* fs := get "features" json in
    match fs with
    | VArr elems => Ok elems
    | _ => Throw TypeError
    end
  else
    let* pointList := isPointList json in
    if pointList : bool then
      match json with
      | VArr elems => forEach pushPoint elems 0 features
      | _ => Throw TypeError
      end
    else
      let* missions := get "missions" json in
      match missions with
      | VArr ms => forEach pushMission ms 0 features
      | _ => Ok features
      end.

End BuildMap.

Import BuildMap.

(** ** convert-points-to-csv.js *)

Module PointsToCsv.

(** Strings are kept as their UTF-8 bytes.  These are the encodings of the
    characters that the regular expression class [\s] matches and that
    [String.prototype.trim] strips: tab, line feed, vertical tab, form
    feed, carriage return, space, U+00A0, U+1680, U+2000 to U+200A,
    U+2028, U+2029, U+202F, U+205F, U+3000 and U+FEFF. *)
Definition bytes (codes : list N) : string :=
  foldr (fun c s => String (Ascii.ascii_of_N c) s) "" codes.

Definition whiteSpace : list string :=
  bytes <$> [ [9]; [10]; [11]; [12]; [13]; [32]; [194; 160]; [225; 154; 128];
              [226; 128; 128]; [226; 128; 129]; [226; 128; 130];
              [226; 128; 131]; [226; 128; 132]; [226; 128; 133];
              [226; 128; 134]; [226; 128; 135]; [226; 128; 136];
              [226; 128; 137]; [226; 128; 138]; [226; 128; 168];
              [226; 128; 169]; [226; 128; 175]; [226; 129; 159];
              [227; 128; 128]; [239; 187; 191] ]%N.

Fixpoint stripPrefix (pre s : string) : option string :=
  match pre, s with
  | EmptyString, _ => Some s
  | String a pre', String b s' =>
      if Ascii.eqb a b then stripPrefix pre' s' else None
  | String _ _, EmptyString => None
  end.

(** The rest of [s] after one leading character of the class [class]. *)
Fixpoint skipOne (class : list string) (s : string) : option string :=
  match class with
  | [] => None
  | pre :: class' =>
      match stripPrefix pre s with
      | Some rest => Some rest
      | None => skipOne class' s
      end
  end.

(** [s.replace(/\s+/g, " ")]: every maximal run of white space becomes one
    space.  [fuel] bounds the number of bytes still to be read. *)
Fixpoint collapseFrom (fuel : nat) (inRun : bool) (s : string) : string :=
  match fuel with
  | 0 => ""
  | S fuel' =>
      match skipOne whiteSpace s with
      | Some rest =>
          if inRun then collapseFrom fuel' true rest
          else " " +:+ collapseFrom fuel' true rest
      | None =>
          match s with
          | EmptyString => ""
          | String c rest => String c (collapseFrom fuel' false rest)
          end
      end
  end.

Definition collapseWhiteSpace (s : string) : string :=
  collapseFrom (String.length s) false s.

Fixpoint dropLeading (class : list string) (fuel : nat) (s : string) : string :=
  match fuel with
  | 0 => s
  | S fuel' =>
      match skipOne class s with
      | Some rest => dropLeading class fuel' rest
      | None => s
      end
  end.

(** [s.trim()] *)
Definition trim (s : string) : string :=
  let s1 := dropLeading whiteSpace (String.length s) s in
  String.rev (dropLeading (String.rev <$> whiteSpace) (String.length s1) (String.rev s1)).

(** [a?.k] *)
Definition optionalGet (k : string) (a : value) : value :=
  if nullish a then VUndef else prop k a.

(** [a ?? b] *)
Definition coalesce (a b : value) : value :=
  if nullish a then b else a.

Definition header : list value :=
  VStr <$> ["Mission"; "Index"; "Title"; "Description"; "Latitude";
            "Longitude"; "Image"].

(** [(p.description || "").replace(/\s+/g, " ").trim()]: only a string
    has a callable [replace]. *)
Definition cleanDescription (p : value) : result value :=
  let* description := get "description" p <||> Ok (VStr "") in
  match description with
  | VStr s => Ok (VStr (trim (collapseWhiteSpace s)))
  | _ => Throw TypeError
  end.

(** Callback of the inner loop: the pushed array literal, its elements
    evaluated left to right.  [mi] and [pi] are array indices, so [mi + 1]
    and [pi + 1] are exact. *)
Definition pushRow (mi : nat) (p : value) (pi : nat)
    (rows : list (list value)) : result (list (list value)) :=
  let mission := VNum (number_of_nat (mi + 1)) in
  let idx := VNum (number_of_nat (pi + 1)) in
  let* title := get "title" p <||> Ok (VStr "") in
  let* description := cleanDescription p in
  let* location := get "location" p in
  let latitude := coalesce (optionalGet "latitude" location) (VStr "") in
  let* location' := get "location" p in
  let longitude := coalesce (optionalGet "longitude" location') (VStr "") in
  let* imageUrl := get "imageUrl" p <||> Ok (VStr "") in
  Ok (rows ++ [[mission; idx; title; description; latitude; longitude; imageUrl]]).

(** Callback of the outer loop: [(m.portals || []).forEach(...)]. *)
Definition pushMissionRows (m : value) (mi : nat) (rows : list (list value))
    : result (list (list value)) :=
  let* portals := get "portals" m <||> Ok (VArr []) in
  match portals with
  | VArr ps => forEach (pushRow mi) ps 0 rows
  | _ => Throw TypeError
  end.

(** The array [rows] once the loops of the script have run over the parsed
    document [data]: [(data.missions || []).forEach(...)]. *)
Definition rows (data : value) : result (list (list value)) :=
  let* missions := get "missions" data <||> Ok (VArr []) in
  match missions with
  | VArr ms => forEach pushMissionRows ms 0 [header]
  | _ => Throw TypeError
  end.

End PointsToCsv.

Import PointsToCsv.

(** ** What the loops compute, stated on the document *)

Module Shape.

(** Elements paired with their indices, counting from [i]. *)
Fixpoint enumFrom {A : Type} (i : nat) (l : list A) : list (nat * A) :=
  match l with
  | [] => []
  | x :: rest => (i, x) :: enumFrom (S i) rest
  end.

(** The portal list the loops walk for a mission: the [portals] array, or
    nothing when the field is falsy (a truthy field that is no array makes
    the loops raise). *)
Definition portalsOf (mission : value) : list value :=
  match prop "portals" mission with
  | VArr ps => ps
  | _ => []
  end.

Definition portalsFrom (mi : nat) (ms : list value) : list (nat * nat * value) :=
  flat_map (fun '(i, mission) => (fun '(j, p) => (i, j, p)) <$> enumFrom 0 (portalsOf mission))
           (enumFrom mi ms).

(** Row-major traversal: mission 0 portal 0, mission 0 portal 1, ...,
    mission 1 portal 0, ...; each portal with its two indices. *)
Definition rowMajor (ms : list value) : list (nat * nat * value) :=
  portalsFrom 0 ms.

(** Position [(mi, pi)] comes before position [(mi', pi')] in row-major
    order. *)
Definition indexBefore (a b : nat * nat * value) : Prop :=
  (a.1.1 < b.1.1)%nat ∨ (a.1.1 = b.1.1 ∧ (a.1.2 < b.1.2)%nat).

(** First truthy of [portal.location], [portal.lat], [portal.geometry]
    (the last one whatever it is). *)
Definition locationSource (portal : value) : value :=
  if truthy (prop "location" portal) then prop "location" portal
  else if truthy (prop "lat" portal) then prop "lat" portal
  else prop "geometry" portal.

(** A pair of numeric attributes of [src], as [(lng, lat)]. *)
Definition numericPair (latKey lngKey : string) (src : value) : option (value * value) :=
  if typeofNumber (prop latKey src) && typeofNumber (prop lngKey src)
  then Some (prop lngKey src, prop latKey src)
  else None.

(** A [Point] geometry whose [coordinates] array starts with two numbers. *)
Definition pointGeometry (g : value) : option (value * value) :=
  if strictEqStr (prop "type" g) "Point" then
    match prop "coordinates" g with
    | VArr cs =>
        if typeofNumber (index cs 0) && typeofNumber (index cs 1)
        then Some (index cs 0, index cs 1)
        else None
    | _ => None
    end
  else None.

Fixpoint firstYield {A : Type} (attempts : list (option A)) : option A :=
  match attempts with
  | [] => None
  | Some a :: _ => Some a
  | None :: rest => firstYield rest
  end.

(** The coordinates [(lng, lat)] of a portal: the two pair encodings are
    read off the location source, the geometry encoding off
    [portal.geometry]. *)
Definition resolvedCoordinates (portal : value) : option (value * value) :=
  firstYield [ numericPair "latitude" "longitude" (locationSource portal);
               numericPair "lat" "lng" (locationSource portal);
               pointGeometry (prop "geometry" portal) ].

Definition portalTitle (mi pi : nat) (portal : value) : value :=
  if truthy (prop "title" portal) then prop "title" portal
  else VStr (placeholderTitle mi pi).

(** The feature of the portal at mission [mi], position [pi], if any. *)
Definition portalFeature (mi pi : nat) (portal : value) : option value :=
  (fun '(lng, lat) => feature (portalTitle mi pi portal) lng lat)
  <$> resolvedCoordinates portal.

(** The feature, if any, of an indexed portal of the traversal. *)
Definition featureAt (t : nat * nat * value) : option value :=
  let '(mi, pi, p) := t in portalFeature mi pi p.

(** The feature of a flat point. *)
Definition pointTitle (p : value) : value :=
  if truthy (prop "title" p) then prop "title" p
  else if truthy (prop "name" p) then prop "name" p
  else VStr "".

Definition pointFeature (p : value) : value :=
  feature (pointTitle p) (prop "lng" p) (prop "lat" p).

(** Both coordinates of a feature present and numeric. *)
Definition numericCoordinates (f : value) : bool :=
  match prop "coordinates" (prop "geometry" f) with
  | VArr [VNum _; VNum _] => true
  | _ => false
  end.

(** The three input shapes, read off the document. *)
Definition collectionShape (json : value) : bool :=
  strictEqStr (prop "type" json) "FeatureCollection"
  && isArray (prop "features" json).

Definition pointListShape (json : value) : bool :=
  match json with
  | VArr (x :: _) => typeofNumber (prop "lat" x)
  | _ => false
  end.

(** A mission the loops get through: it is an object or another value with
    properties, its [portals] is falsy or an array, and no element of that
    array is [null] or [undefined]. *)
Definition walkableMission (mission : value) : bool :=
  negb (nullish mission)
  && (negb (truthy (prop "portals" mission)) || isArray (prop "portals" mission))
  && forallb (fun p => negb (nullish p)) (portalsOf mission).

(** The inputs on which [extractFeatures] raises nothing. *)
Definition safeInput (json : value) : bool :=
  if negb (truthy json) then true
  else if collectionShape json then true
  else match json with
       | VArr (x :: rest) =>
           negb (nullish x)
           && (negb (typeofNumber (prop "lat" x))
               || forallb (fun p => negb (nullish p)) rest)
       | _ =>
           match prop "missions" json with
           | VArr ms => forallb walkableMission ms
           | _ => true
           end
       end.

End Shape.

Import Shape.

(** ** What the row builder computes, stated on the document *)

Module CsvShape.

Definition missionsOf (data : value) : list value :=
  match prop "missions" data with
  | VArr ms => ms
  | _ => []
  end.

(** [v || ""] *)
Definition orEmpty (v : value) : value :=
  if truthy v then v else VStr "".

Definition isString (v : value) : bool :=
  match v with
  | VStr _ => true
  | _ => false
  end.

Definition descriptionText (p : value) : string :=
  match prop "description" p with
  | VStr s => s
  | _ => ""
  end.

(** [p.location?.latitude] and [p.location?.longitude] *)
Definition latitudeOf (p : value) : value := optionalGet "latitude" (prop "location" p).
Definition longitudeOf (p : value) : value := optionalGet "longitude" (prop "location" p).

(** The row of the portal at mission [mi], position [pi]. *)
Definition csvRow (t : nat * nat * value) : list value :=
  let '(mi, pi, p) := t in
  [ VNum (number_of_nat (mi + 1));
    VNum (number_of_nat (pi + 1));
    orEmpty (prop "title" p);
    VStr (trim (collapseWhiteSpace (descriptionText p)));
    coalesce (latitudeOf p) (VStr "");
    coalesce (longitudeOf p) (VStr "");
    orEmpty (prop "imageUrl" p) ].

(** A portal the row builder gets through: not [null] or [undefined], its
    [description] falsy or a string. *)
Definition rowablePortal (p : value) : bool :=
  negb (nullish p)
  && (negb (truthy (prop "description" p)) || isString (prop "description" p)).

Definition rowableMission (m : value) : bool :=
  negb (nullish m)
  && (negb (truthy (prop "portals" m)) || isArray (prop "portals" m))
  && forallb rowablePortal (portalsOf m).

(** The documents on which the row builder raises nothing. *)
Definition rowableDocument (data : value) : bool :=
  negb (nullish data)
  && (negb (truthy (prop "missions" data)) || isArray (prop "missions" data))
  && forallb rowableMission (missionsOf data).

End CsvShape.

Import CsvShape.

(** ** Sample documents *)

Module Samples.

Definition num (n : nat) : value := VNum (number_of_nat n).

Definition pointGeometryOf (cs : list value) : value :=
  VObj {[ "type" := VStr "Point"; "coordinates" := VArr cs ]}.

(** [{location: {latitude: 1, longitude: 2}}] *)
Definition portalByLatitude : value :=
  VObj {[ "location" := VObj {[ "latitude" := num 1; "longitude" := num 2 ]} ]}.

(** [{location: {lat: 3, lng: 4}, title: "Named"}] *)
Definition portalByLat : value :=
  VObj {[ "location" := VObj {[ "lat" := num 3; "lng" := num 4 ]};
          "title" := VStr "Named" ]}.

(** [{}] *)
Definition portalEmpty : value := VObj ∅.

(** [{location: {}, geometry: {type: "Point", coordinates: [5, 6]}}] *)
Definition portalStaleLocation : value :=
  VObj {[ "location" := VObj ∅; "geometry" := pointGeometryOf [num 5; num 6] ]}.

(** [{geometry: {type: "Point", coordinates: [5, 6, 7]}}] *)
Definition portalWithAltitude : value :=
  VObj {[ "geometry" := pointGeometryOf [num 5; num 6; num 7] ]}.

Definition missionOf (ps : list value) : value := VObj {[ "portals" := VArr ps ]}.

Definition documentOf (ms : list value) : value := VObj {[ "missions" := VArr ms ]}.

(** Two missions: three portals, the middle one without coordinates, then
    one portal located by its geometry. *)
Definition nestedDocument : value :=
  documentOf [ missionOf [portalByLatitude; portalEmpty; portalByLat];
               missionOf [portalStaleLocation] ].

(** [{type: "FeatureCollection", features: [null], missions: 7}] *)
Definition collectionDocument : value :=
  VObj {[ "type" := VStr "FeatureCollection"; "features" := VArr [VNull];
          "missions" := num 7 ]}.

(** [[{lat: 1}]] *)
Definition pointsWithoutLongitude : value := VArr [VObj {[ "lat" := num 1 ]}].

(** [[{lat: 1, lng: 2, title: "", name: "N"}]] *)
Definition pointsWithEmptyTitle : value :=
  VArr [VObj {[ "lat" := num 1; "lng" := num 2; "title" := VStr "";
                "name" := VStr "N" ]}].

(** [[{lat: 1, lng: 2}, null]] *)
Definition pointsThenNull : value :=
  VArr [VObj {[ "lat" := num 1; "lng" := num 2 ]}; VNull].

(** [{missions: [{portals: "x"}]}] *)
Definition portalsAsString : value :=
  documentOf [VObj {[ "portals" := VStr "x" ]}].

(** [{missions: [{portals: [null, {location: {latitude: 1, longitude: 2}}]}]}] *)
Definition portalsWithNull : value :=
  documentOf [missionOf [VNull; portalByLatitude]].

End Samples.

Import Samples.

(** ** As the specification words it *)

Module AsSpecified.

(** Flat list title: [title] if present, else [name] if present, else the
    empty string. *)
Definition pointTitle (p : value) : value :=
  match p with
  | VObj props =>
      match props !! "title" with
      | Some t => t
      | None => default (VStr "") (props !! "name")
      end
  | _ => VStr ""
  end.

Definition pointFeature (p : value) : value :=
  feature (pointTitle p) (prop "lng" p) (prop "lat" p).

(** Third encoding: a geometry object of type [Point] with a two-element
    numeric [coordinates] array. *)
Definition pointGeometry (g : value) : option (value * value) :=
  if strictEqStr (prop "type" g) "Point" then
    match prop "coordinates" g with
    | VArr [VNum lng; VNum lat] => Some (VNum lng, VNum lat)
    | _ => None
    end
  else None.

(** All three encodings tried on the resolved location source. *)
Definition resolvedCoordinates (portal : value) : option (value * value) :=
  firstYield [ numericPair "latitude" "longitude" (locationSource portal);
               numericPair "lat" "lng" (locationSource portal);
               pointGeometry (locationSource portal) ].

End AsSpecified.

(** ** build-map.js: the page script around the normalizer *)

Module MapPage.

(** [{ type: 'FeatureCollection', features }], the object inlined in the
    page. *)
Definition geojson (features : list value) : value :=
  VObj {[ "type" := VStr "FeatureCollection"; "features" := VArr features ]}.

(** What the script does with the parsed document: it stops with the
    message that no points were found and exit code 1, or writes the page.
    Of the page two things are kept: the collection object that the script
    hands to [JSON.stringify], as it is before it is serialised, and the
    number shown in the footer.  The text that the serialisation inlines in
    the page, and what the page's own script reads back from it, are not
    modelled. *)
Inductive outcome : Type :=
| NoPoints
| Page (data : value) (loaded : nat).

Definition buildMap (json : value) : result outcome :=
  let* features := extractFeatures json in
  if Nat.eqb (length features) 0 then Ok NoPoints
  else Ok (Page (geojson features) (length features)).

Definition doubleQuote : ascii := Ascii.ascii_of_N 34.

(** The replacement [escapeHtml] looks up for a character matched by its
    pattern, the class of the ampersand, the two angle brackets, the double
    quote and the apostrophe; no entry for the other characters. *)
Definition htmlEntity (c : ascii) : option string :=
  if Ascii.eqb c "&" then Some "&amp;"
  else if Ascii.eqb c "<" then Some "&lt;"
  else if Ascii.eqb c ">" then Some "&gt;"
  else if Ascii.eqb c doubleQuote then Some "&quot;"
  else if Ascii.eqb c "'" then Some "&#39;"
  else None.

(** [escapeHtml] on the text [String(s)]: one pass, every matched character
    replaced by its entity. *)
Fixpoint escapeHtml (s : string) : string :=
  match s with
  | EmptyString => ""
  | String c rest =>
      match htmlEntity c with
      | Some entity => entity +:+ escapeHtml rest
      | None => String c (escapeHtml rest)
      end
  end.

End MapPage.

Import MapPage.

(** ** convert-points-to-csv.js: the text written to the file *)

Module CsvText.

(** [s.replace(c, by)] with the [g] flag, for a one-character pattern. *)
Fixpoint replaceAll (c : ascii) (by_ : string) (s : string) : string :=
  match s with
  | EmptyString => ""
  | String a rest =>
      if Ascii.eqb a c then by_ +:+ replaceAll c by_ rest
      else String a (replaceAll c by_ rest)
  end.

(** The template literal of one cell, on its text [String(v)]: the text
    between two quotes, every quote inside it doubled. *)
Definition quoteField (text : string) : string :=
  String doubleQuote
    (replaceAll doubleQuote (String doubleQuote (String doubleQuote "")) text
     +:+ String doubleQuote "").

(** [a.join(sep)] on an array of strings. *)
Fixpoint join (sep : string) (parts : list string) : string :=
  match parts with
  | [] => ""
  | [x] => x
  | x :: rest => x +:+ sep +:+ join sep rest
  end.

Definition lineFeed : ascii := Ascii.ascii_of_N 10.

(** [rows.map(r => r.map(quote).join(",")).join("\n")], on the texts of the
    cells. *)
Definition csvText (table : list (list string)) : string :=
  join (String lineFeed "") ((fun r => join "," (quoteField <$> r)) <$> table).

End CsvText.

Import CsvText.

(** ** json-to-kml.js *)

Module Kml.

Definition PALETTE : list string :=
  [ "#E6194B"; "#3CB44B"; "#0082C8"; "#F58231"; "#911EB4"; "#46F0F0";
    "#F032E6"; "#D2F53C"; "#FABEBE"; "#008080"; "#E6BEFF"; "#AA6E28";
    "#800000"; "#FFD8B1"; "#000080"; "#808000"; "#F0E442"; "#4E79A7";
    "#59A14F"; "#E15759"; "#EDC948"; "#B07AA1"; "#76B7B2"; "#FF9DA7" ].

(** [[0-9a-fA-F]] *)
Definition isHexDigit (c : ascii) : bool :=
  let n := Ascii.N_of_ascii c in
  ((48 <=? n) && (n <=? 57) || (65 <=? n) && (n <=? 70)
   || (97 <=? n) && (n <=? 102))%N.

(** [s.replace(c, '')] with a string pattern: the first occurrence only. *)
Fixpoint removeFirst (c : ascii) (s : string) : string :=
  match s with
  | EmptyString => ""
  | String a rest => if Ascii.eqb a c then rest else String a (removeFirst c rest)
  end.

(** The three groups of the pattern when it matches at the start of [s]. *)
Definition hexGroupsAtStart (s : string) : option (string * string * string) :=
  match s with
  | String r1 (String r2 (String g1 (String g2 (String b1 (String b2 _))))) =>
      if forallb isHexDigit [r1; r2; g1; g2; b1; b2]
      then Some (String r1 (String r2 ""), String g1 (String g2 ""),
                 String b1 (String b2 ""))
      else None
  | _ => None
  end.

(** [s.match(/([0-9a-fA-F]{2})([0-9a-fA-F]{2})([0-9a-fA-F]{2})/)]: the groups
    of the leftmost match, if there is one. *)
Fixpoint matchHexGroups (s : string) : option (string * string * string) :=
  match hexGroupsAtStart s with
  | Some groups => Some groups
  | None =>
      match s with
      | EmptyString => None
      | String _ rest => matchHexGroups rest
      end
  end.

(** The characters below 128. *)
Definition isAscii (c : ascii) : bool := (Ascii.N_of_ascii c <? 128)%N.

Fixpoint allAscii (s : string) : bool :=
  match s with
  | EmptyString => true
  | String c rest => isAscii c && allAscii rest
  end.

(** [toUpperCase] on ASCII text only: there it changes the letters a to z
    and nothing else.  On other text JavaScript also maps letters outside
    ASCII, which this definition leaves as they are; what is stated of
    [kmlColor] with it takes [alpha] in ASCII, as the callers' literals
    'FF' and 'CC' are, the three groups being hexadecimal digits. *)
Definition upperChar (c : ascii) : ascii :=
  let n := Ascii.N_of_ascii c in
  if ((97 <=? n) && (n <=? 122))%N then Ascii.ascii_of_N (n - 32) else c.

Fixpoint toUpperCase (s : string) : string :=
  match s with
  | EmptyString => ""
  | String c rest => String (upperChar c) (toUpperCase rest)
  end.

Definition kmlColor (rgb alpha : string) : string :=
  match matchHexGroups (removeFirst "#" rgb) with
  | None => alpha +:+ "FFFFFF"
  | Some (r, g, b) => toUpperCase (alpha +:+ b +:+ g +:+ r)
  end.

(** [PALETTE[i % PALETTE.length]], the colour [buildKml] hands to
    [styleBlock] for mission [i]; [None] stands for [undefined]. *)
Definition missionColor (i : nat) : option string :=
  PALETTE !! (i mod length PALETTE).

(** [esc] on the text [String(s)]: three global replacements in a row. *)
Definition esc (s : string) : string :=
  replaceAll ">" "&gt;" (replaceAll "<" "&lt;" (replaceAll "&" "&amp;" s)).

(** Callback of [portals.map] in [buildKml]: the point of the route for a
    portal, or [null]. *)
Definition routePoint (p : value) : value :=
  let lat := optionalGet "latitude" (optionalGet "location" p) in
  let lon := optionalGet "longitude" (optionalGet "location" p) in
  if typeofNumber lat && typeofNumber lon
  then VObj {[ "lat" := lat; "lon" := lon ]}
  else VNull.

(** [portals.map(...).filter(Boolean)], the array [coords]. *)
Definition routeCoords (portals : list value) : list value :=
  List.filter truthy (routePoint <$> portals).

End Kml.

Import Kml.

(** ** Readers and checks the statements below are written with *)

Module Readers.

(** The character the entity at the start of [s] stands for, and the rest
    of the text after it. *)
Fixpoint readEntity (table : list (string * ascii)) (s : string)
    : option (ascii * string) :=
  match table with
  | [] => None
  | (entity, c) :: table' =>
      match stripPrefix entity s with
      | Some rest => Some (c, rest)
      | None => readEntity table' s
      end
  end.

Definition htmlEntities : list (string * ascii) :=
  [ ("&amp;", "&"%char); ("&lt;", "<"%char); ("&gt;", ">"%char);
    ("&quot;", doubleQuote); ("&#39;", "'"%char) ].

Definition kmlEntities : list (string * ascii) :=
  [ ("&amp;", "&"%char); ("&lt;", "<"%char); ("&gt;", ">"%char) ].

(** Entities replaced by their characters, one pass from the left. *)
Fixpoint unescapeFrom (table : list (string * ascii)) (fuel : nat) (s : string) : string :=
  match fuel with
  | 0 => ""
  | S fuel' =>
      match readEntity table s with
      | Some (c, rest) => String c (unescapeFrom table fuel' rest)
      | None =>
          match s with
          | EmptyString => ""
          | String c rest => String c (unescapeFrom table fuel' rest)
          end
      end
  end.

Definition unescape (table : list (string * ascii)) (s : string) : string :=
  unescapeFrom table (String.length s) s.

(** Whether the character [c] occurs in [s]. *)
Fixpoint occurs (c : ascii) (s : string) : bool :=
  match s with
  | EmptyString => false
  | String a rest => Ascii.eqb a c || occurs c rest
  end.

(** The three replacements of [esc], read as a table. *)
Definition kmlEntity (c : ascii) : option string :=
  if Ascii.eqb c "&" then Some "&amp;"
  else if Ascii.eqb c "<" then Some "&lt;"
  else if Ascii.eqb c ">" then Some "&gt;"
  else None.

(** One pass over [s], every character with an entry in [entity] replaced. *)
Fixpoint escapeOnce (entity : ascii → option string) (s : string) : string :=
  match s with
  | EmptyString => ""
  | String c rest =>
      match entity c with
      | Some e => e +:+ escapeOnce entity rest
      | None => String c (escapeOnce entity rest)
      end
  end.

(** A text without tab, line feed, vertical tab, form feed or carriage
    return, in which no space follows a space, and which does not start
    with a space when [afterSpace] is set. *)
Fixpoint singleSpaced (afterSpace : bool) (s : string) : bool :=
  match s with
  | EmptyString => true
  | String c rest =>
      if Ascii.eqb c " " then negb afterSpace && singleSpaced true rest
      else negb (Ascii.is_space c) && singleSpaced false rest
  end.

(** A text made of hexadecimal digits only. *)
Fixpoint allHex (s : string) : bool :=
  match s with
  | EmptyString => true
  | String c rest => isHexDigit c && allHex rest
  end.

(** A palette entry of the form #RRGGBB whose two KML colours are the alpha
    followed by BB, GG and RR. *)
Definition paletteEntryOk (rgb : string) : bool :=
  match rgb with
  | String h (String r1 (String r2 (String g1 (String g2 (String b1 (String b2 EmptyString)))))) =>
      let bgr := String b1 (String b2 (String g1 (String g2 (String r1 (String r2 ""))))) in
      Ascii.eqb h "#"
      && String.eqb (kmlColor rgb "FF") ("FF" +:+ bgr)
      && String.eqb (kmlColor rgb "CC") ("CC" +:+ bgr)
  | _ => false
  end.

(** A reader of comma-separated text whose fields are all quoted. *)
Inductive readerMode : Type := FieldStart | InField | AfterQuote.

Record reader : Type := {
  finished : list (list string);   (* the records read so far *)
  record : list string;            (* the fields of the current record *)
  field : string;                  (* the text of the current field *)
  mode : readerMode
}.

Definition closeField (r : reader) : list string := record r ++ [field r].

Definition readChar (c : ascii) (r : reader) : option reader :=
  match mode r with
  | FieldStart =>
      if Ascii.eqb c doubleQuote
      then Some {| finished := finished r; record := record r; field := ""; mode := InField |}
      else None
  | InField =>
      if Ascii.eqb c doubleQuote
      then Some {| finished := finished r; record := record r; field := field r; mode := AfterQuote |}
      else Some {| finished := finished r; record := record r;
                   field := field r +:+ String c ""; mode := InField |}
  | AfterQuote =>
      if Ascii.eqb c doubleQuote
      then Some {| finished := finished r; record := record r;
                   field := field r +:+ String doubleQuote ""; mode := InField |}
      else if Ascii.eqb c ","
      then Some {| finished := finished r; record := closeField r; field := ""; mode := FieldStart |}
      else if Ascii.eqb c lineFeed
      then Some {| finished := finished r ++ [closeField r]; record := []; field := "";
                   mode := FieldStart |}
      else None
  end.

Fixpoint readFrom (s : string) (r : reader) : option reader :=
  match s with
  | EmptyString => Some r
  | String c rest => readChar c r ≫= readFrom rest
  end.

(** The table a text denotes: the empty text is the empty table, any other
    text must end right after a closing quote. *)
Definition readCsv (s : string) : option (list (list string)) :=
  match s with
  | EmptyString => Some []
  | _ =>
      readFrom s {| finished := []; record := []; field := ""; mode := FieldStart |}
      ≫= fun r => match mode r with
                  | AfterQuote => Some (finished r ++ [closeField r])
                  | _ => None
                  end
  end.

End Readers.

Import Readers.

(** ** Sample runs *)

Example trim_collapse_sample :
  trim (collapseWhiteSpace (bytes [32; 9; 97; 32; 194; 160; 10; 98; 226; 128; 168; 32]%N))
  = "a b".
Proof. vm_compute. reflexivity. Qed.

Example extractFeatures_nested_sample :
  extractFeatures
    (VObj {[ "missions" := VArr [ VObj {[ "portals" := VArr [
       VObj {[ "location" := VObj {[ "latitude" := VNum (number_of_nat 1);
                                     "longitude" := VNum (number_of_nat 2) ]} ]};
       VObj {[ "location" := VObj {[ "lat" := VNum (number_of_nat 3);
                                     "lng" := VNum (number_of_nat 4) ]};
               "title" := VStr "Named" ]};
       VObj ∅ ] ]} ] ]})
  = Ok [ feature (VStr "Portal 1-1") (VNum (number_of_nat 2)) (VNum (number_of_nat 1));
         feature (VStr "Named") (VNum (number_of_nat 4)) (VNum (number_of_nat 3)) ].
Proof. vm_compute. reflexivity. Qed.

(** [{missions: [{portals: [{title: "A", description: " x  y ",
    location: {latitude: 1}}, {}]}]}] *)
Example rows_sample :
  rows (documentOf [missionOf [
          VObj {[ "title" := VStr "A"; "description" := VStr " x  y ";
                  "location" := VObj {[ "latitude" := num 1 ]} ]};
          portalEmpty ]])
  = Ok [ header;
         [num 1; num 1; VStr "A"; VStr "x y"; num 1; VStr ""; VStr ""];
         [num 1; num 2; VStr ""; VStr ""; VStr ""; VStr ""; VStr ""] ].
Proof. vm_compute. reflexivity. Qed.

(** ** Property reads, truthiness and the loop combinator *)

Section Operators.

Lemma truthy_not_nullish v : truthy v = true → nullish v = false.
Proof. by destruct v. Qed.

Lemma falsy_prop k v : truthy v = false → prop k v = VUndef.
Proof. by destruct v. Qed.

Lemma get_defined k v : nullish v = false → get k v = Ok (prop k v).
Proof. unfold get. by intros ->. Qed.

Lemma get_nullish k v : nullish v = true → get k v = Throw TypeError.
Proof. unfold get. by intros ->. Qed.

Lemma get_truthy k v : truthy v = true → get k v = Ok (prop k v).
Proof. intros Hv. by apply get_defined, truthy_not_nullish. Qed.



End Operators.

(** ** The row-major traversal *)

Section Traversal.

Lemma elem_of_enumFrom {A : Type} (l : list A) (i j : nat) x :
  (j, x) ∈ enumFrom i l ↔ (i ≤ j)%nat ∧ l !! (j - i) = Some x.
Proof.
  revert i. induction l as [|y l IH]; intros i; simpl.
  - split; [by intros ?%elem_of_nil|by intros [_ ?]].
  - rewrite elem_of_cons, IH. split.
    + intros [[= -> ->]|[Hle Hl]].
      * split; [lia|]. by rewrite Nat.sub_diag.
      * split; [lia|]. by replace (j - i) with (S (j - S i)) by lia.
    + intros [Hle Hl]. destruct (decide (j = i)) as [->|Hne].
      * left. rewrite Nat.sub_diag in Hl. simpl in Hl. by injection Hl as ->.
      * right. split; [lia|].
        by replace (j - i) with (S (j - S i)) in Hl by lia.
Qed.

Lemma enumFrom_sorted {A : Type} (l : list A) i :
  StronglySorted (fun a b => (a.1 < b.1)%nat) (enumFrom i l).
Proof.
  revert i. induction l as [|y l IH]; intros i; simpl; constructor; [done|].
  apply Forall_forall. intros [j x] [Hle _]%elem_of_enumFrom. simpl. lia.
Qed.

(** The traversal holds exactly the portals of the document, each at the
    position it has there. *)
Lemma elem_of_portalsFrom ms (i mi pi : nat) p :
  (mi, pi, p) ∈ portalsFrom i ms
  ↔ (i ≤ mi)%nat ∧ ∃ m, ms !! (mi - i) = Some m ∧ portalsOf m !! pi = Some p.
Proof.
  unfold portalsFrom. rewrite list_elem_of_In, in_flat_map. split.
  - intros [[k m] [Hin Hp]]. apply list_elem_of_In, elem_of_enumFrom in Hin.
    apply list_elem_of_In, list_elem_of_fmap in Hp as [[j q] [[= -> -> ->] Hq]].
    apply elem_of_enumFrom in Hq. rewrite Nat.sub_0_r in Hq.
    destruct Hin as [Hle Hm], Hq as [_ Hq]. eauto.
  - intros [Hle [m [Hm Hp]]]. exists (mi, m). split.
    + apply list_elem_of_In, elem_of_enumFrom. done.
    + apply list_elem_of_In, list_elem_of_fmap. exists (pi, p). split; [done|].
      apply elem_of_enumFrom. rewrite Nat.sub_0_r. split; [lia|done].
Qed.

(** Its positions increase in row-major order. *)
Lemma portalsFrom_sorted ms i : StronglySorted indexBefore (portalsFrom i ms).
Proof.
  unfold portalsFrom. revert i.
  induction ms as [|m ms IH]; intros i; simpl; [constructor|].
  apply StronglySorted_app_2; [| |apply IH].
  - intros a [[mi pi] p] [[j q] [-> Hq]]%list_elem_of_fmap Hb.
    apply (elem_of_portalsFrom ms (S i)) in Hb as [Hle _].
    left. simpl. lia.
  - apply StronglySorted_fmap with (R1 := fun a b => (a.1 < b.1)%nat);
      [|apply enumFrom_sorted].
    intros [j q] [j' q'] Hlt. right. simpl in *. done.
Qed.

Lemma enumFrom_app {A : Type} (l1 l2 : list A) i :
  enumFrom i (l1 ++ l2) = enumFrom i l1 ++ enumFrom (i + length l1) l2.
Proof.
  revert i. induction l1 as [|x l1 IH]; intros i; simpl.
  - by rewrite Nat.add_0_r.
  - rewrite IH. by replace (S i + length l1) with (i + S (length l1)) by lia.
Qed.

(** The traversal, cut at the mission in position [length ms1]. *)
Lemma portalsFrom_middle ms1 m ms2 i :
  portalsFrom i (ms1 ++ m :: ms2)
  = portalsFrom i ms1
    ++ ((fun '(j, p) => (i + length ms1, j, p)) <$> enumFrom 0 (portalsOf m))
    ++ portalsFrom (S (i + length ms1)) ms2.
Proof. unfold portalsFrom. by rewrite enumFrom_app, flat_map_app. Qed.

Lemma elem_of_rowMajor ms mi pi p :
  (mi, pi, p) ∈ rowMajor ms
  ↔ ∃ m, ms !! mi = Some m ∧ portalsOf m !! pi = Some p.
Proof.
  unfold rowMajor. rewrite elem_of_portalsFrom, Nat.sub_0_r.
  split; [by intros [_ H]|]. intros H. split; [lia|done].
Qed.

Lemma rowMajor_sorted ms : StronglySorted indexBefore (rowMajor ms).
Proof. apply portalsFrom_sorted. Qed.

End Traversal.

(** ** The portal callback *)

Section Portal.

Lemma numericPair_falsy a b src : truthy src = false → numericPair a b src = None.
Proof. intros Hs. unfold numericPair. by rewrite !(falsy_prop _ _ Hs). Qed.

Lemma pointGeometry_falsy g : truthy g = false → pointGeometry g = None.
Proof. intros Hg. unfold pointGeometry. by rewrite !(falsy_prop _ _ Hg). Qed.

Lemma locationSource_get portal :
  nullish portal = false →
  get "location" portal <||> get "lat" portal <||> get "geometry" portal
  = Ok (locationSource portal).
Proof.
  intros Hp. rewrite !get_defined by done. unfold locationSource, JS.or; simpl.
  destruct (truthy (prop "location" portal)) eqn:Hl; simpl; rewrite ?Hl; [done|].
  by destruct (truthy (prop "lat" portal)) eqn:Hq; simpl.
Qed.

Local Ltac close_leaf :=
  simpl; rewrite ?app_nil_r;
  first [ done
        | match goal with
          | |- context [truthy (prop "title" ?p)] =>
              by destruct (truthy (prop "title" p))
          end ].

(** Case analysis on the geometry branch, the last one of the chain. *)
Local Ltac geometry_branch g :=
  let Hg := fresh "Hg" in
  destruct (truthy g) eqn:Hg; simpl;
  [ rewrite ?(get_truthy _ g Hg); unfold pointGeometry; simpl;
    destruct (strictEqStr (prop "type" g) "Point"); simpl; [|close_leaf];
    destruct (prop "coordinates" g); simpl; try close_leaf;
    match goal with
    | |- context [index ?cs 0] =>
        destruct (typeofNumber (index cs 0)), (typeofNumber (index cs 1))
    end; close_leaf
  | rewrite (pointGeometry_falsy g Hg); close_leaf ].

Lemma pushPortal_feature mi portal pi features :
  nullish portal = false →
  pushPortal mi portal pi features
  = Ok (features ++ option_list (portalFeature mi pi portal)).
Proof.
  intros Hp.
  unfold pushPortal, portalFeature, portalTitle, portalCoordinates, resolvedCoordinates.
  rewrite locationSource_get by done.
  set (loc := locationSource portal). set (g := prop "geometry" portal).
  rewrite !(get_defined _ portal) by done. fold g.
  unfold JS.and, JS.or, fmap, result_fmap. simpl.
  destruct (truthy loc) eqn:Hloc; simpl.
  - rewrite !(get_truthy _ loc) by done. unfold numericPair. simpl.
    destruct (typeofNumber (prop "latitude" loc)) eqn:Ha1;
      destruct (typeofNumber (prop "longitude" loc)) eqn:Ha2; simpl;
      rewrite ?Ha1, ?Ha2; try close_leaf;
      (destruct (typeofNumber (prop "lat" loc)) eqn:Hb1;
       destruct (typeofNumber (prop "lng" loc)) eqn:Hb2; simpl;
       rewrite ?Hb1, ?Hb2; try close_leaf;
       geometry_branch g).
  - rewrite !(numericPair_falsy _ _ loc) by done. simpl.
    geometry_branch g.
Qed.

End Portal.

(** ** The loops over portals and missions *)

Section Loops.

Lemma forEach_throws {St : Type} (cb : value → nat → St → result St) l x i s :
  In x l → (∀ j s', cb x j s' = Throw TypeError) →
  forEach cb l i s = Throw TypeError.
Proof.
  intros Hin Hx. revert i s.
  induction l as [|y l IH]; intros i s; simpl; [done|].
  destruct Hin as [->|Hin].
  - by rewrite Hx.
  - destruct (cb y i s) as [s'|[]]; simpl; [by apply IH|done].
Qed.

Lemma pushPortal_nullish mi portal pi features :
  nullish portal = true → pushPortal mi portal pi features = Throw TypeError.
Proof.
  intros Hp. unfold pushPortal, portalCoordinates.
  by rewrite (get_nullish "location" portal Hp).
Qed.

Lemma forEach_pushPortal mi ps pi features :
  forallb (fun p => negb (nullish p)) ps = true →
  forEach (pushPortal mi) ps pi features
  = Ok (features ++ omap (fun '(j, p) => portalFeature mi j p) (enumFrom pi ps)).
Proof.
  revert pi features.
  induction ps as [|p ps IH]; intros pi features Hps; simpl.
  - by rewrite app_nil_r.
  - simpl in Hps. apply andb_prop in Hps as [Hp Hps].
    apply negb_true_iff in Hp.
    rewrite pushPortal_feature by done. simpl.
    rewrite IH by done. rewrite <- app_assoc.
    by destruct (portalFeature mi pi p).
Qed.

Lemma pushMission_features mission mi features :
  walkableMission mission = true →
  pushMission mission mi features
  = Ok (features
        ++ omap (fun '(j, p) => portalFeature mi j p) (enumFrom 0 (portalsOf mission))).
Proof.
  unfold walkableMission, pushMission, portalsOf.
  intros [[Hm Hps]%andb_prop Hall]%andb_prop.
  apply negb_true_iff in Hm.
  rewrite get_defined by done. unfold JS.or; simpl.
  destruct (prop "portals" mission) as [| | | | |ps|] eqn:Hp; simpl in *;
    try done.
  - by rewrite app_nil_r.
  - by rewrite app_nil_r.
  - destruct b; [done|]. simpl. by rewrite app_nil_r.
  - rewrite orb_false_r in Hps. apply negb_true_iff in Hps. rewrite Hps.
    simpl. by rewrite app_nil_r.
  - rewrite orb_false_r in Hps. apply negb_true_iff in Hps. rewrite Hps.
    simpl. by rewrite app_nil_r.
  - by apply forEach_pushPortal.
Qed.

Lemma forallb_false_witness {A : Type} (f : A → bool) (l : list A) :
  forallb f l = false → ∃ x, In x l ∧ f x = false.
Proof.
  induction l as [|y l IH]; simpl; [done|].
  destruct (f y) eqn:Hy; simpl.
  - intros [x [Hin Hx]]%IH. eauto.
  - eauto.
Qed.

Lemma forEach_pushPortal_nullish mi ps pi features :
  forallb (fun p => negb (nullish p)) ps = false →
  forEach (pushPortal mi) ps pi features = Throw TypeError.
Proof.
  intros [p [Hin Hp]]%forallb_false_witness. apply negb_false_iff in Hp.
  apply forEach_throws with (x := p); [done|].
  intros j s'. by apply pushPortal_nullish.
Qed.

Lemma pushMission_unwalkable mission mi features :
  walkableMission mission = false →
  pushMission mission mi features = Throw TypeError.
Proof.
  unfold walkableMission, pushMission, portalsOf. intros Hw.
  destruct (nullish mission) eqn:Hm; [by rewrite get_nullish|].
  rewrite get_defined by done. unfold JS.or; simpl. simpl in Hw.
  destruct (prop "portals" mission) as [| |b|x|s|ps|] eqn:Hp; simpl in *;
    try done.
  - by destruct b.
  - by destruct x.
  - by destruct s.
  - by apply forEach_pushPortal_nullish.
Qed.

Lemma forEach_pushMission ms mi features :
  forallb walkableMission ms = true →
  forEach pushMission ms mi features
  = Ok (features ++ omap featureAt (portalsFrom mi ms)).
Proof.
  revert mi features.
  induction ms as [|m ms IH]; intros mi features Hms; simpl.
  - by rewrite app_nil_r.
  - simpl in Hms. apply andb_prop in Hms as [Hm Hms].
    rewrite pushMission_features by done. simpl.
    rewrite IH by done. unfold portalsFrom; simpl.
    rewrite omap_app, app_assoc. do 3 f_equal.
    generalize (enumFrom 0 (portalsOf m)). intros l.
    induction l as [|[j p] l IHl]; [done|].
    change (omap ?f ((j, p) :: l)) with
      (match f (j, p) with Some y => y :: omap f l | None => omap f l end).
    by rewrite IHl.
Qed.

Lemma forEach_pushMission_unwalkable ms mi features :
  forallb walkableMission ms = false →
  forEach pushMission ms mi features = Throw TypeError.
Proof.
  intros [m [Hin Hm]]%forallb_false_witness.
  apply forEach_throws with (x := m); [done|].
  intros j s'. by apply pushMission_unwalkable.
Qed.

End Loops.

(** ** Shape detection *)

Section Shapes.

Lemma extractFeatures_falsy json :
  truthy json = false → extractFeatures json = Ok [].
Proof. unfold extractFeatures. by intros ->. Qed.

Lemma isFeatureCollection_shape json :
  nullish json = false → isFeatureCollection json = Ok (collectionShape json).
Proof.
  intros Hj. unfold isFeatureCollection, collectionShape.
  rewrite !get_defined by done. simpl.
  by destruct (strictEqStr (prop "type" json) "FeatureCollection").
Qed.

Lemma isPointList_object props : isPointList (VObj props) = Ok false.
Proof. done. Qed.

Lemma isPointList_head x rest :
  nullish x = false →
  isPointList (VArr (x :: rest)) = Ok (typeofNumber (prop "lat" x)).
Proof. intros Hx. unfold isPointList, index. simpl. by rewrite get_defined. Qed.

Lemma feature_coordinates title lng lat :
  prop "coordinates" (prop "geometry" (feature title lng lat)) = VArr [lng; lat].
Proof. by vm_compute. Qed.

Lemma feature_title title lng lat :
  prop "title" (prop "properties" (feature title lng lat)) = title.
Proof. by vm_compute. Qed.

Lemma numericCoordinates_feature title lng lat :
  numericCoordinates (feature title lng lat)
  = typeofNumber lng && typeofNumber lat.
Proof.
  unfold numericCoordinates. rewrite feature_coordinates.
  by destruct lng, lat.
Qed.

(** An input with a [missions] array is an object, and one that is not a
    feature collection goes to the loop over the missions. *)
Lemma extractFeatures_missions json ms :
  collectionShape json = false → prop "missions" json = VArr ms →
  extractFeatures json = forEach pushMission ms 0 [].
Proof.
  intros Hc Hm. destruct json as [| | | | | |props]; try done.
  unfold extractFeatures.
  rewrite isFeatureCollection_shape, Hc, (get_defined "missions"), Hm by done.
  done.
Qed.

Lemma extractFeatures_no_missions json :
  collectionShape json = false → pointListShape json = false →
  safeInput json = true → isArray (prop "missions" json) = false →
  extractFeatures json = Ok [].
Proof.
  intros Hc Hp Hs Hm.
  destruct (truthy json) eqn:Ht; [|by apply extractFeatures_falsy].
  unfold extractFeatures. rewrite Ht. simpl.
  rewrite isFeatureCollection_shape by by apply truthy_not_nullish.
  rewrite Hc. simpl.
  unfold safeInput in Hs. rewrite Ht, Hc in Hs. simpl in Hs.
  destruct json as [| |b|n|s|[|x rest]|props]; try done.
  - apply andb_prop in Hs as [Hx _]. apply negb_true_iff in Hx.
    rewrite isPointList_head by done. simpl in Hp. by rewrite Hp.
  - simpl in *. by destruct (default VUndef (props !! "missions")).
Qed.

End Shapes.

(** ** The flat point list *)

Section PointList.

Lemma pushPoint_feature p i features :
  nullish p = false → pushPoint p i features = Ok (features ++ [pointFeature p]).
Proof.
  intros Hp. unfold pushPoint, pointFeature, pointTitle, JS.or.
  rewrite !get_defined by done. simpl.
  destruct (truthy (prop "title" p)) eqn:Ht; simpl; rewrite ?Ht; [done|].
  by destruct (truthy (prop "name" p)).
Qed.

Lemma pushPoint_nullish p i features :
  nullish p = true → pushPoint p i features = Throw TypeError.
Proof. intros Hp. unfold pushPoint. by rewrite (get_nullish "title" p Hp). Qed.

Lemma forEach_pushPoint elems i features :
  forallb (fun p => negb (nullish p)) elems = true →
  forEach pushPoint elems i features = Ok (features ++ (pointFeature <$> elems)).
Proof.
  revert i features.
  induction elems as [|p elems IH]; intros i features Hall; simpl.
  - by rewrite app_nil_r.
  - simpl in Hall. apply andb_prop in Hall as [Hp Hall].
    apply negb_true_iff in Hp.
    rewrite pushPoint_feature by done. simpl.
    rewrite IH by done. by rewrite <- app_assoc.
Qed.

Lemma forEach_pushPoint_nullish elems i features :
  forallb (fun p => negb (nullish p)) elems = false →
  forEach pushPoint elems i features = Throw TypeError.
Proof.
  intros [p [Hin Hp]]%forallb_false_witness. apply negb_false_iff in Hp.
  apply forEach_throws with (x := p); [done|].
  intros j s'. by apply pushPoint_nullish.
Qed.

(** An array never has a [type] property, so the feature collection rule
    does not apply to it. *)
Lemma extractFeatures_array x rest :
  extractFeatures (VArr (x :: rest))
  = let* pointList := isPointList (VArr (x :: rest)) in
    if pointList : bool then forEach pushPoint (x :: rest) 0 [] else Ok [].
Proof.
  unfold extractFeatures. rewrite isFeatureCollection_shape by done.
  cbn [truthy negb collectionShape prop strictEqStr andb JS.bind].
  rewrite (get_defined "missions") by done.
  by destruct (isPointList (VArr (x :: rest))) as [[]|].
Qed.

Lemma extractFeatures_collection json :
  truthy json = true → collectionShape json = true →
  ∃ elems, prop "features" json = VArr elems ∧ extractFeatures json = Ok elems.
Proof.
  intros Ht Hc. unfold extractFeatures. rewrite Ht. simpl.
  rewrite isFeatureCollection_shape, Hc by by apply truthy_not_nullish.
  simpl. rewrite get_truthy by done.
  unfold collectionShape in Hc. apply andb_prop in Hc as [_ Hf].
  destruct (prop "features" json) as [| | | | |elems|]; try done.
  by exists elems.
Qed.

Lemma extractFeatures_safe json :
  safeInput json = true → ∃ fs, extractFeatures json = Ok fs.
Proof.
  intros Hs.
  destruct (truthy json) eqn:Ht; [|exists []; by apply extractFeatures_falsy].
  destruct (collectionShape json) eqn:Hc.
  { destruct (extractFeatures_collection json Ht Hc) as [elems [_ He]]. eauto. }
  destruct (isArray (prop "missions" json)) eqn:Hm.
  - destruct (prop "missions" json) as [| | | | |ms|] eqn:Hms; try done.
    rewrite (extractFeatures_missions json ms) by done.
    destruct json as [| | | | | |props]; try done.
    unfold safeInput in Hs. rewrite Hc, Hms in Hs. simpl in Hs.
    rewrite forEach_pushMission by done. eauto.
  - destruct (pointListShape json) eqn:Hp.
    + destruct json as [| | | | |[|x rest]|]; try done.
      unfold safeInput in Hs. rewrite Hc in Hs. simpl in Hs, Hp.
      rewrite Hp in Hs. simpl in Hs.
      apply andb_prop in Hs as [Hx Hrest]. apply negb_true_iff in Hx.
      rewrite extractFeatures_array, isPointList_head, Hp by done. cbn [JS.bind].
      rewrite forEach_pushPoint; [eauto|]. simpl. by rewrite Hx.
    + exists []. by apply extractFeatures_no_missions.
Qed.

Lemma extractFeatures_unsafe json :
  safeInput json = false → extractFeatures json = Throw TypeError.
Proof.
  intros Hs. unfold safeInput in Hs.
  destruct (truthy json) eqn:Ht; [|done]. simpl in Hs.
  destruct (collectionShape json) eqn:Hc; [done|].
  destruct json as [| |b|n|s|[|x rest]|props]; try done.
  - rewrite extractFeatures_array.
    destruct (nullish x) eqn:Hx.
    + unfold isPointList, index. simpl. by rewrite get_nullish.
    + rewrite isPointList_head by done. simpl in Hs.
      destruct (typeofNumber (prop "lat" x)); [|done]. simpl in Hs.
      cbn [JS.bind]. apply forEach_pushPoint_nullish. simpl. by rewrite Hx.
  - destruct (prop "missions" (VObj props)) as [| | | | |ms|] eqn:Hms; try done.
    rewrite (extractFeatures_missions _ ms) by done.
    by apply forEach_pushMission_unwalkable.
Qed.

End PointList.

(** ** The normalizer: results *)

Section Normalizer.

Lemma resolvedCoordinates_numeric portal lng lat :
  resolvedCoordinates portal = Some (lng, lat) →
  typeofNumber lng && typeofNumber lat = true.
Proof.
  unfold resolvedCoordinates, numericPair, pointGeometry. simpl.
  repeat match goal with
         | |- context [if ?b then _ else _] => destruct b eqn:?; simpl
         | |- context [match prop ?k ?v with _ => _ end] =>
             destruct (prop k v) eqn:?; simpl
         end; try done;
    intros [= <- <-]; first [done | by rewrite andb_comm].
Qed.

Lemma featureAt_numeric t f :
  featureAt t = Some f → numericCoordinates f = true.
Proof.
  destruct t as [[mi pi] p]. unfold featureAt, portalFeature.
  destruct (resolvedCoordinates p) as [[lng lat]|] eqn:Hr; [|done].
  simpl. intros [= <-]. rewrite numericCoordinates_feature.
  by apply resolvedCoordinates_numeric in Hr.
Qed.

Lemma omap_featureAt_numeric ts :
  forallb numericCoordinates (omap featureAt ts) = true.
Proof.
  induction ts as [|t ts IH]; [done|].
  change (omap featureAt (t :: ts)) with
    (match featureAt t with Some y => y :: omap featureAt ts | None => omap featureAt ts end).
  destruct (featureAt t) as [f|] eqn:Hf; [|done].
  simpl. by rewrite (featureAt_numeric t f Hf).
Qed.

Lemma omap_featureAt_tagged mi (l : list (nat * value)) :
  omap featureAt ((fun '(j, p) => (mi, j, p)) <$> l)
  = omap (fun '(j, p) => portalFeature mi j p) l.
Proof.
  induction l as [|[j p] l IH]; [done|].
  change (omap ?f ((j, p) :: l)) with
    (match f (j, p) with Some y => y :: omap f l | None => omap f l end).
  rewrite <- IH. done.
Qed.

(** [featureAt], written out. *)
Lemma omap_featureAt_resolved (ts : list (nat * nat * value)) :
  omap featureAt ts
  = omap (fun '(mi, pi, p) =>
            match resolvedCoordinates p with
            | Some (lng, lat) => Some (feature (portalTitle mi pi p) lng lat)
            | None => None
            end) ts.
Proof.
  induction ts as [|[[mi pi] p] ts IH]; [done|].
  change (omap ?f ((mi, pi, p) :: ts)) with
    (match f (mi, pi, p) with Some y => y :: omap f ts | None => omap f ts end).
  rewrite IH. unfold featureAt, portalFeature.
  by destruct (resolvedCoordinates p) as [[lng lat]|].
Qed.

(** The whole outcome on a document with a [missions] array. *)
Lemma extractFeatures_nested json ms :
  collectionShape json = false → prop "missions" json = VArr ms →
  extractFeatures json
  = if forallb walkableMission ms then Ok (omap featureAt (rowMajor ms))
    else Throw TypeError.
Proof.
  intros Hc Hm. rewrite (extractFeatures_missions json ms) by done.
  destruct (forallb walkableMission ms) eqn:Hw.
  - by rewrite forEach_pushMission.
  - by apply forEach_pushMission_unwalkable.
Qed.


End Normalizer.

(** ** The CSV rows *)

Section Rows.

(** A loop whose callback either appends [g i x] to the state or raises,
    according to a test [ok] on the element alone. *)
Lemma forEach_collect {B : Type} (cb : value → nat → list B → result (list B))
    (ok : value → bool) (g : nat → value → list B) :
  (∀ x i s, ok x = true → cb x i s = Ok (s ++ g i x)) →
  (∀ x i s, ok x = false → cb x i s = Throw TypeError) →
  ∀ l i s,
    forEach cb l i s
    = if forallb ok l
      then Ok (s ++ flat_map (fun '(j, x) => g j x) (enumFrom i l))
      else Throw TypeError.
Proof.
  intros Hok Hbad l. induction l as [|x l IH]; intros i s; simpl.
  - by rewrite app_nil_r.
  - destruct (ok x) eqn:Hx; simpl.
    + rewrite Hok by done. simpl. rewrite IH.
      destruct (forallb ok l); [|done]. by rewrite <- app_assoc.
    + by rewrite Hbad.
Qed.

Lemma cleanDescription_rowable p :
  rowablePortal p = true →
  cleanDescription p = Ok (VStr (trim (collapseWhiteSpace (descriptionText p)))).
Proof.
  unfold rowablePortal, cleanDescription, descriptionText.
  intros [Hp Hd]%andb_prop. apply negb_true_iff in Hp.
  rewrite get_defined by done. unfold JS.or. simpl.
  destruct (prop "description" p) as [| |b|n|s| |]; simpl in *; try done.
  - by destruct b.
  - by destruct n.
  - by destruct s.
Qed.

Lemma cleanDescription_unrowable p :
  nullish p = false → rowablePortal p = false →
  cleanDescription p = Throw TypeError.
Proof.
  unfold rowablePortal, cleanDescription. intros Hp Hd. rewrite Hp in Hd.
  rewrite get_defined by done. unfold JS.or. simpl in *.
  destruct (prop "description" p) as [| |b|n|s| |]; simpl in *; try done.
  - by destruct b.
  - by destruct n.
  - by rewrite orb_true_r in Hd.
Qed.

Lemma pushRow_row mi p pi rs :
  rowablePortal p = true → pushRow mi p pi rs = Ok (rs ++ [csvRow (mi, pi, p)]).
Proof.
  intros Hr. unfold pushRow. rewrite cleanDescription_rowable by done.
  apply andb_prop in Hr as [Hp _]. apply negb_true_iff in Hp.
  rewrite !get_defined by done. unfold JS.or, csvRow, orEmpty. simpl.
  destruct (truthy (prop "title" p)), (truthy (prop "imageUrl" p)); done.
Qed.

Lemma pushRow_unrowable mi p pi rs :
  rowablePortal p = false → pushRow mi p pi rs = Throw TypeError.
Proof.
  intros Hr. unfold pushRow.
  destruct (nullish p) eqn:Hp; [by rewrite get_nullish|].
  rewrite cleanDescription_unrowable by done.
  rewrite get_defined by done. unfold JS.or. simpl.
  by destruct (truthy (prop "title" p)).
Qed.

Lemma flat_map_singleton {A B : Type} (f : A → B) (l : list A) :
  flat_map (fun x => [f x]) l = f <$> l.
Proof. induction l as [|x l IH]; simpl; [done|]. by rewrite IH. Qed.

Lemma pushMissionRows_rows m mi rs :
  pushMissionRows m mi rs
  = if rowableMission m
    then Ok (rs ++ (csvRow <$> ((fun '(j, p) => (mi, j, p)) <$> enumFrom 0 (portalsOf m))))
    else Throw TypeError.
Proof.
  unfold pushMissionRows, rowableMission, portalsOf.
  destruct (nullish m) eqn:Hm; [by rewrite get_nullish|].
  rewrite get_defined by done. unfold JS.or. simpl.
  pose proof (forEach_collect (pushRow mi) rowablePortal
                (fun j p => [csvRow (mi, j, p)])
                (fun x i s => pushRow_row mi x i s)
                (fun x i s => pushRow_unrowable mi x i s)) as Hloop.
  destruct (prop "portals" m) as [| |b|n|s|ps|] eqn:Hp; simpl;
    rewrite ?app_nil_r; try done.
  - destruct b; simpl; by rewrite ?app_nil_r.
  - destruct n; simpl; by rewrite ?app_nil_r.
  - destruct s; simpl; by rewrite ?app_nil_r.
  - rewrite Hloop. destruct (forallb rowablePortal ps); [|done].
    do 2 f_equal. rewrite <- list_fmap_compose.
    rewrite <- flat_map_singleton. apply flat_map_ext. by intros [j p].
Qed.

Lemma fmap_portalsFrom {B : Type} (f : nat * nat * value → B) i ms :
  flat_map (fun '(mi, m) => f <$> ((fun '(j, p) => (mi, j, p)) <$> enumFrom 0 (portalsOf m)))
           (enumFrom i ms)
  = f <$> portalsFrom i ms.
Proof.
  unfold portalsFrom. revert i.
  induction ms as [|m ms IH]; intros i; simpl; [done|].
  by rewrite fmap_app, IH.
Qed.

Lemma rows_rowMajor data :
  rows data
  = if rowableDocument data
    then Ok (header :: (csvRow <$> rowMajor (missionsOf data)))
    else Throw TypeError.
Proof.
  unfold rows, rowableDocument, missionsOf.
  destruct (nullish data) eqn:Hd; [by rewrite get_nullish|].
  rewrite get_defined by done. unfold JS.or. simpl.
  pose proof (forEach_collect pushMissionRows rowableMission
                (fun mi m => csvRow <$> ((fun '(j, p) => (mi, j, p)) <$> enumFrom 0 (portalsOf m)))) as Hloop.
  destruct (prop "missions" data) as [| |b|n|s|ms|] eqn:Hp; simpl; try done.
  - by destruct b.
  - by destruct n.
  - by destruct s.
  - rewrite Hloop.
    + destruct (forallb rowableMission ms); [|done].
      simpl. do 2 f_equal. apply fmap_portalsFrom.
    + intros x i s' Hx. by rewrite pushMissionRows_rows, Hx.
    + intros x i s' Hx. by rewrite pushMissionRows_rows, Hx.
Qed.

End Rows.

(** ** Properties of the normalizer *)

(** C1 does not hold on the two lenient shapes: a flat point without [lng]
    and a passed-through collection element come out without two numeric
    coordinates. *)
Lemma lenient_shapes_keep_incomplete_features :
  (extractFeatures pointsWithoutLongitude
   = Ok [feature (VStr "") VUndef (num 1)]
   ∧ numericCoordinates (feature (VStr "") VUndef (num 1)) = false)
  ∧ (extractFeatures collectionDocument = Ok [VNull]
     ∧ numericCoordinates VNull = false).
Proof. repeat split; by vm_compute. Qed.

(** C1 (amended): on every input that is neither a feature collection nor a
    flat point list, every feature that extractFeatures returns has both
    coordinates present and numeric, and the features returned are exactly
    those of the portals whose coordinates resolve, in traversal order, each
    with its resolved coordinates: a portal whose coordinates do not resolve
    to two numbers is left out, not included with coordinates of any other
    kind. *)
Theorem nested_features_have_numeric_coordinates json fs :
  collectionShape json = false → pointListShape json = false →
  extractFeatures json = Ok fs →
  forallb numericCoordinates fs = true
  ∧ fs = omap (fun '(mi, pi, p) =>
                 match resolvedCoordinates p with
                 | Some (lng, lat) => Some (feature (portalTitle mi pi p) lng lat)
                 | None => None
                 end)
              (rowMajor (missionsOf json)).
Proof.
  intros Hc Hp He. rewrite <- omap_featureAt_resolved.
  assert (fs = omap featureAt (rowMajor (missionsOf json))) as ->;
    [|split; [apply omap_featureAt_numeric|done]].
  destruct (safeInput json) eqn:Hs;
    [|by rewrite extractFeatures_unsafe in He].
  unfold missionsOf.
  destruct (prop "missions" json) as [| | | | |ms|] eqn:Hm;
    try (rewrite extractFeatures_no_missions in He by (by rewrite ?Hm);
         by injection He as <-).
  rewrite (extractFeatures_nested json ms Hc Hm) in He.
  destruct (forallb walkableMission ms); [|done].
  by injection He as <-.
Qed.

Lemma nested_features_have_numeric_coordinates_witness :
  forallb numericCoordinates
    [ feature (VStr "Portal 1-1") (num 2) (num 1);
      feature (VStr "Named") (num 4) (num 3);
      feature (VStr "Portal 2-1") (num 5) (num 6) ] = true
  ∧ [ feature (VStr "Portal 1-1") (num 2) (num 1);
      feature (VStr "Named") (num 4) (num 3);
      feature (VStr "Portal 2-1") (num 5) (num 6) ]
    = omap (fun '(mi, pi, p) =>
              match resolvedCoordinates p with
              | Some (lng, lat) => Some (feature (portalTitle mi pi p) lng lat)
              | None => None
              end)
           (rowMajor (missionsOf nestedDocument)).
Proof.
  apply (nested_features_have_numeric_coordinates nestedDocument);
    by vm_compute.
Defined.

(** C2 does not hold for every input: a [null] where a point is expected
    makes the property read [json[0].lat] raise. *)
Lemma extractFeatures_throws_on_null_point :
  extractFeatures (VArr [VNull]) = Throw TypeError
  ∧ ¬ (∀ json, ∃ fs, extractFeatures json = Ok fs).
Proof.
  split; [done|]. intros Hall. by destruct (Hall (VArr [VNull])) as [fs Hfs].
Qed.

(** C2 (amended): extractFeatures returns a sequence, raising nothing, for
    every input in which no point, mission or portal is [null] or
    [undefined] and every [portals] field is falsy or an array; for every
    falsy input, [null] and [undefined] among them, the sequence is empty. *)
Theorem extractFeatures_returns_on_safe_input json :
  safeInput json = true →
  ∃ fs, extractFeatures json = Ok fs ∧ (truthy json = false → fs = []).
Proof.
  intros Hs. destruct (extractFeatures_safe json Hs) as [fs Hfs].
  exists fs. split; [done|].
  intros Ht. rewrite extractFeatures_falsy in Hfs by done. by injection Hfs.
Qed.

Lemma extractFeatures_returns_on_safe_input_witness :
  ∃ fs, extractFeatures VNull = Ok fs ∧ (truthy VNull = false → fs = []).
Proof. apply (extractFeatures_returns_on_safe_input VNull). reflexivity. Defined.

(** C3: an object whose [type] is the string "FeatureCollection" and whose
    [features] is an array yields that array itself, whatever its elements
    and whatever else the object holds. *)
Theorem feature_collection_passthrough (props : gmap string value) (elems : list value) :
  props !! "type" = Some (VStr "FeatureCollection") →
  props !! "features" = Some (VArr elems) →
  extractFeatures (VObj props) = Ok elems.
Proof.
  intros Ht Hf.
  destruct (extractFeatures_collection (VObj props)) as [elems' [Hp He]].
  - done.
  - unfold collectionShape. simpl. by rewrite Ht, Hf.
  - simpl in Hp. rewrite Hf in Hp. simpl in Hp. by injection Hp as <-.
Qed.

Lemma feature_collection_passthrough_witness :
  extractFeatures collectionDocument = Ok [VNull].
Proof.
  unfold collectionDocument.
  apply feature_collection_passthrough; by vm_compute.
Defined.

(** C4 does not hold for every portal entry: a [null] in the [portals]
    array has no coordinates under any encoding, and the read of
    [portal.location] on it raises, so that the portal after it, which
    alone yields a feature, is never reached.  Nor does it hold with the
    encodings as the specification words them: a portal with a stale
    [location] and a point geometry yields nothing under those, and still
    contributes a feature. *)
Lemma null_portal_halts_the_loops :
  (resolvedCoordinates VNull = None
   ∧ AsSpecified.resolvedCoordinates VNull = None
   ∧ extractFeatures (documentOf [missionOf [portalByLatitude]])
     = Ok [feature (VStr "Portal 1-1") (num 2) (num 1)]
   ∧ extractFeatures portalsWithNull = Throw TypeError)
  ∧ (AsSpecified.resolvedCoordinates portalStaleLocation = None
     ∧ extractFeatures (documentOf [missionOf [portalStaleLocation]])
       = Ok [feature (VStr "Portal 1-1") (num 5) (num 6)]).
Proof. repeat split; by vm_compute. Qed.

(** C4 (amended): in the nested shape a portal, other than [null] or
    [undefined], for which none of the encodings the code tries yields two
    numbers (neither numeric pair on the location source, no point geometry
    on the portal) adds nothing to the features and does not stop the
    loops: the output is made of the features of the missions before it, of
    the portals before it and after it in its mission, and of the missions
    after it, each at its own position; the call raises only if one of
    those other entries cannot be walked. *)
Theorem unresolved_portal_is_skipped json ms1 mission ms2 ps1 p ps2 :
  collectionShape json = false →
  prop "missions" json = VArr (ms1 ++ mission :: ms2) →
  prop "portals" mission = VArr (ps1 ++ p :: ps2) →
  nullish p = false →
  numericPair "latitude" "longitude" (locationSource p) = None →
  numericPair "lat" "lng" (locationSource p) = None →
  pointGeometry (prop "geometry" p) = None →
  extractFeatures json
  = if forallb walkableMission ms1
       && forallb (fun q => negb (nullish q)) (ps1 ++ ps2)
       && forallb walkableMission ms2
    then Ok (omap featureAt (portalsFrom 0 ms1)
             ++ omap (fun '(j, q) => portalFeature (length ms1) j q) (enumFrom 0 ps1)
             ++ omap (fun '(j, q) => portalFeature (length ms1) j q)
                     (enumFrom (S (length ps1)) ps2)
             ++ omap featureAt (portalsFrom (S (length ms1)) ms2))
    else Throw TypeError.
Proof.
  intros Hc Hm Hp Hn Ha Hb Hg.
  assert (Hr : portalFeature (length ms1) (length ps1) p = None).
  { unfold portalFeature, resolvedCoordinates. by rewrite Ha, Hb, Hg. }
  assert (Hps : portalsOf mission = ps1 ++ p :: ps2) by (unfold portalsOf; by rewrite Hp).
  assert (Hw : walkableMission mission
               = forallb (fun q => negb (nullish q)) (ps1 ++ ps2)).
  { unfold walkableMission. rewrite Hps, Hp, !forallb_app. simpl. rewrite Hn. simpl.
    by destruct mission. }
  rewrite (extractFeatures_nested json _ Hc Hm).
  rewrite forallb_app. simpl forallb. rewrite Hw, andb_assoc.
  destruct (forallb walkableMission ms1 && forallb _ (ps1 ++ ps2)
            && forallb walkableMission ms2); [|done].
  unfold rowMajor. rewrite portalsFrom_middle, !omap_app, omap_featureAt_tagged.
  rewrite Hps, enumFrom_app, omap_app. simpl enumFrom.
  change (omap ?f ((?j, p) :: ?l)) with
    (match f (j, p) with Some y => y :: omap f l | None => omap f l end).
  cbn beta iota. rewrite !Nat.add_0_l, Hr. by rewrite <- !app_assoc.
Qed.

Lemma unresolved_portal_is_skipped_witness :
  extractFeatures nestedDocument
  = Ok [ feature (VStr "Portal 1-1") (num 2) (num 1);
         feature (VStr "Named") (num 4) (num 3);
         feature (VStr "Portal 2-1") (num 5) (num 6) ].
Proof.
  rewrite (unresolved_portal_is_skipped nestedDocument []
             (missionOf [portalByLatitude; portalEmpty; portalByLat])
             [missionOf [portalStaleLocation]] [portalByLatitude] portalEmpty
             [portalByLat]);
    by vm_compute.
Defined.

(** C5 does not hold as worded: a present but empty [title] gives way to
    [name], and a [null] after the first element makes the loop raise
    instead of emitting one feature per element. *)
Lemma point_title_is_by_truthiness_not_presence :
  (extractFeatures pointsWithEmptyTitle = Ok [feature (VStr "N") (num 2) (num 1)]
   ∧ AsSpecified.pointFeature
       (VObj {[ "lat" := num 1; "lng" := num 2; "title" := VStr ""; "name" := VStr "N" ]})
     = feature (VStr "") (num 2) (num 1)
   ∧ feature (VStr "N") (num 2) (num 1) ≠ feature (VStr "") (num 2) (num 1))
  ∧ extractFeatures pointsThenNull = Throw TypeError.
Proof.
  repeat split; by vm_compute.
Qed.

(** C5 (amended): for every array whose first element has a numeric [lat]
    and none of whose elements is [null] or [undefined], extractFeatures
    emits exactly one feature per element, in order, with coordinates
    [lng, lat] and with title the element's [title] if truthy, else its
    [name] if truthy, else the empty string. *)
Theorem point_list_one_feature_per_element (x : value) (rest : list value) :
  typeofNumber (prop "lat" x) = true →
  forallb (fun p => negb (nullish p)) rest = true →
  extractFeatures (VArr (x :: rest)) = Ok (pointFeature <$> x :: rest).
Proof.
  intros Hlat Hrest.
  assert (Hx : nullish x = false) by by destruct x.
  rewrite extractFeatures_array, isPointList_head, Hlat by done. cbn [JS.bind].
  rewrite forEach_pushPoint; [done|]. simpl. by rewrite Hx.
Qed.

Lemma point_list_one_feature_per_element_witness :
  extractFeatures pointsWithEmptyTitle
  = Ok (pointFeature
        <$> [VObj {[ "lat" := num 1; "lng" := num 2; "title" := VStr "";
                     "name" := VStr "N" ]}]).
Proof.
  unfold pointsWithEmptyTitle.
  apply point_list_one_feature_per_element; by vm_compute.
Defined.

(** C6 does not hold as worded: the geometry encoding is read off
    [portal.geometry], not off the resolved location source, and it accepts
    a [coordinates] array of more than two elements. *)
Lemma geometry_encoding_is_read_off_the_portal :
  (AsSpecified.resolvedCoordinates portalStaleLocation = None
   ∧ pushPortal 0 portalStaleLocation 0 []
     = Ok [feature (VStr "Portal 1-1") (num 5) (num 6)])
  ∧ (AsSpecified.resolvedCoordinates portalWithAltitude = None
     ∧ pushPortal 0 portalWithAltitude 0 []
       = Ok [feature (VStr "Portal 1-1") (num 5) (num 6)]).
Proof. repeat split; by vm_compute. Qed.

(** C6 (amended): for each portal, other than [null] or [undefined], the
    encodings are tried in order: the numeric pair latitude, longitude of the
    resolved location source, then its numeric pair lat, lng, then
    [portal.geometry] of type "Point" whose [coordinates] array starts with
    two numbers [lng, lat]; the first one that yields two numbers gives the
    emitted coordinates, and when none does nothing is emitted. *)
Theorem portal_coordinates_by_first_encoding mi portal pi features :
  nullish portal = false →
  pushPortal mi portal pi features
  = match firstYield [ numericPair "latitude" "longitude" (locationSource portal);
                       numericPair "lat" "lng" (locationSource portal);
                       pointGeometry (prop "geometry" portal) ] with
    | Some (lng, lat) => Ok (features ++ [feature (portalTitle mi pi portal) lng lat])
    | None => Ok features
    end.
Proof.
  intros Hp. rewrite pushPortal_feature by done.
  unfold portalFeature, resolvedCoordinates.
  destruct (firstYield _) as [[lng lat]|]; simpl; [done|].
  by rewrite app_nil_r.
Qed.

Lemma portal_coordinates_by_first_encoding_witness :
  pushPortal 0 portalWithAltitude 0 []
  = Ok ([] ++ [feature (portalTitle 0 0 portalWithAltitude) (num 5) (num 6)]).
Proof.
  apply (portal_coordinates_by_first_encoding 0 portalWithAltitude 0 []).
  reflexivity.
Defined.

(** A [missions] field that is not an array gives the empty sequence,
    unless the document is a feature collection. *)
Lemma non_array_missions_give_nothing props :
  collectionShape (VObj props) = false →
  isArray (prop "missions" (VObj props)) = false →
  extractFeatures (VObj props) = Ok [].
Proof.
  intros Hc Hm. apply extractFeatures_no_missions; try done.
  unfold safeInput. rewrite Hc. simpl in *.
  by destruct (default VUndef (props !! "missions")).
Qed.

(** C7 fails on the code: a [portals] field holding a non-empty string is
    not treated as an empty portal list, the call of [forEach] on it raises
    a [TypeError]. *)
Theorem truthy_non_array_portals_throw :
  extractFeatures portalsAsString = Throw TypeError.
Proof. by vm_compute. Qed.

(** C8: on a document with a [missions] array that is not a feature
    collection, and whose missions can all be walked, the output is the
    row-major traversal of the portals (mission 0 portal 0, mission 0 portal
    1, ..., mission 1 portal 0, ...) with each portal replaced by its feature
    and the portals without one left out, the others keeping their relative
    order; if some mission cannot be walked the call raises.  The traversal
    holds each portal of the document once, at its own position, and its
    positions increase in row-major order. *)
Theorem nested_output_is_row_major json ms :
  collectionShape json = false →
  prop "missions" json = VArr ms →
  extractFeatures json
  = (if forallb walkableMission ms then Ok (omap featureAt (rowMajor ms))
     else Throw TypeError)
  ∧ StronglySorted indexBefore (rowMajor ms)
  ∧ ∀ mi pi p,
      (mi, pi, p) ∈ rowMajor ms
      ↔ ∃ m, ms !! mi = Some m ∧ portalsOf m !! pi = Some p.
Proof.
  intros Hc Hm. split; [by apply extractFeatures_nested|].
  split; [apply rowMajor_sorted|]. intros mi pi p. apply elem_of_rowMajor.
Qed.

Lemma nested_output_is_row_major_witness :
  extractFeatures nestedDocument
  = Ok [ feature (VStr "Portal 1-1") (num 2) (num 1);
         feature (VStr "Named") (num 4) (num 3);
         feature (VStr "Portal 2-1") (num 5) (num 6) ].
Proof.
  destruct (nested_output_is_row_major nestedDocument
              [ missionOf [portalByLatitude; portalEmpty; portalByLat];
                missionOf [portalStaleLocation] ]
              eq_refl eq_refl) as [H _].
  rewrite H. by vm_compute.
Defined.



(** ** Properties of the CSV converter *)

(** C10: on every document the row builder gets through, the rows are the
    header followed by exactly one row per portal, in row-major order
    (missions outer, portals inner), none left out; the latitude and
    longitude cells of a row hold the empty string whenever
    [p.location?.latitude], respectively [p.location?.longitude], is [null]
    or [undefined]; on any other document the script raises. *)
Theorem csv_one_row_per_portal data :
  rows data
  = (if rowableDocument data
     then Ok (header :: (csvRow <$> rowMajor (missionsOf data)))
     else Throw TypeError)
  ∧ length (header :: (csvRow <$> rowMajor (missionsOf data)))
    = S (length (rowMajor (missionsOf data)))
  ∧ ∀ mi pi p,
      csvRow (mi, pi, p) !! 4
      = Some (if nullish (latitudeOf p) then VStr "" else latitudeOf p)
      ∧ csvRow (mi, pi, p) !! 5
        = Some (if nullish (longitudeOf p) then VStr "" else longitudeOf p).
Proof.
  split; [apply rows_rowMajor|]. split; [simpl; by rewrite length_fmap|].
  intros mi pi p. by split.
Qed.

(** ** Text escaping *)

Section Escaping.

Lemma append_cons c s t : String c s +:+ t = String c (s +:+ t).
Proof. done. Qed.

Lemma append_nil_l t : "" +:+ t = t.
Proof. done. Qed.

Lemma append_assoc (s t u : string) : (s +:+ t) +:+ u = s +:+ (t +:+ u).
Proof. induction s as [|c s IH]; [done|]. by rewrite !append_cons, IH. Qed.

Lemma length_append (s t : string) :
  String.length (s +:+ t) = String.length s + String.length t.
Proof. induction s as [|c s IH]; [done|]. rewrite append_cons. simpl. by rewrite IH. Qed.

Lemma occurs_append c s t : occurs c (s +:+ t) = occurs c s || occurs c t.
Proof.
  induction s as [|a s IH]; [done|]. rewrite append_cons. simpl.
  by rewrite IH, orb_assoc.
Qed.

Lemma stripPrefix_append pre s : stripPrefix pre (pre +:+ s) = Some s.
Proof.
  induction pre as [|a pre IH]; [by destruct s|].
  rewrite append_cons. simpl. by rewrite Ascii.eqb_refl.
Qed.

Lemma htmlEntity_cases c :
  (c = "&"%char ∧ htmlEntity c = Some "&amp;")
  ∨ (c = "<"%char ∧ htmlEntity c = Some "&lt;")
  ∨ (c = ">"%char ∧ htmlEntity c = Some "&gt;")
  ∨ (c = doubleQuote ∧ htmlEntity c = Some "&quot;")
  ∨ (c = "'"%char ∧ htmlEntity c = Some "&#39;")
  ∨ (htmlEntity c = None ∧ c ≠ "&"%char ∧ c ≠ "<"%char ∧ c ≠ ">"%char
     ∧ c ≠ doubleQuote ∧ c ≠ "'"%char).
Proof.
  unfold htmlEntity.
  destruct (Ascii.eqb_spec c "&"); [left; auto|].
  destruct (Ascii.eqb_spec c "<"); [right; left; auto|].
  destruct (Ascii.eqb_spec c ">"); [do 2 right; left; auto|].
  destruct (Ascii.eqb_spec c doubleQuote); [do 3 right; left; auto|].
  destruct (Ascii.eqb_spec c "'"); [do 4 right; left; auto|].
  do 5 right. auto 10.
Qed.

Lemma kmlEntity_cases c :
  (c = "&"%char ∧ kmlEntity c = Some "&amp;")
  ∨ (c = "<"%char ∧ kmlEntity c = Some "&lt;")
  ∨ (c = ">"%char ∧ kmlEntity c = Some "&gt;")
  ∨ (kmlEntity c = None ∧ c ≠ "&"%char ∧ c ≠ "<"%char ∧ c ≠ ">"%char).
Proof.
  unfold kmlEntity.
  destruct (Ascii.eqb_spec c "&"); [left; auto|].
  destruct (Ascii.eqb_spec c "<"); [right; left; auto|].
  destruct (Ascii.eqb_spec c ">"); [do 2 right; left; auto|].
  do 3 right. auto.
Qed.

Lemma escapeHtml_escapeOnce s : escapeHtml s = escapeOnce htmlEntity s.
Proof. induction s as [|c s IH]; simpl; [done|]. by rewrite IH. Qed.

Lemma unescapeFrom_S table n s :
  unescapeFrom table (S n) s
  = match readEntity table s with
    | Some (c, rest) => String c (unescapeFrom table n rest)
    | None =>
        match s with
        | EmptyString => ""
        | String c rest => String c (unescapeFrom table n rest)
        end
    end.
Proof. done. Qed.

Lemma readEntity_plain table c s :
  c ≠ "&"%char → Forall (fun e => ∃ e', e.1 = String "&" e') table →
  readEntity table (String c s) = None.
Proof.
  intros Hc. induction 1 as [|[entity c'] table [e' He] _ IH]; [done|].
  simpl in He. subst entity. cbn [readEntity stripPrefix].
  destruct (Ascii.eqb_spec "&" c); [by subst|]. apply IH.
Qed.

Lemma readEntity_empty table :
  Forall (fun e => ∃ e', e.1 = String "&" e') table → readEntity table "" = None.
Proof.
  induction 1 as [|[entity c'] table [e' He] _ IH]; [done|].
  simpl in He. by subst entity.
Qed.

End Escaping.

(** An escaping table and the entity list that reads it back. *)
Section RoundTrip.

Context (entity : ascii → option string) (table : list (string * ascii)).
Hypothesis entity_read :
  ∀ c e s, entity c = Some e → readEntity table (e +:+ s) = Some (c, s).
Hypothesis entity_nonempty : ∀ c, entity c ≠ Some "".
Hypothesis plain_not_ampersand : ∀ c, entity c = None → c ≠ "&"%char.
Hypothesis table_ampersand : Forall (fun e => ∃ e', e.1 = String "&" e') table.

Lemma escapeOnce_length s :
  (String.length s ≤ String.length (escapeOnce entity s))%nat.
Proof.
  induction s as [|c s IH]; simpl; [done|].
  destruct (entity c) as [e|] eqn:He; simpl; [|lia].
  rewrite length_append. destruct e; [by destruct (entity_nonempty c)|simpl; lia].
Qed.

Lemma unescapeFrom_escapeOnce s n :
  (String.length s ≤ n)%nat → unescapeFrom table n (escapeOnce entity s) = s.
Proof.
  revert n. induction s as [|c s IH]; intros n Hn.
  - destruct n; [done|]. cbn [escapeOnce]. by rewrite unescapeFrom_S, readEntity_empty.
  - destruct n as [|n]; simpl in Hn; [lia|].
    assert (Hs : (String.length s ≤ n)%nat) by lia. specialize (IH n Hs).
    cbn [escapeOnce]. rewrite unescapeFrom_S.
    destruct (entity c) as [e|] eqn:He.
    + by rewrite (entity_read c e), IH.
    + by rewrite readEntity_plain, IH; auto.
Qed.

Lemma unescape_escapeOnce s : unescape table (escapeOnce entity s) = s.
Proof. apply unescapeFrom_escapeOnce, escapeOnce_length. Qed.

End RoundTrip.

Section EscapingResults.

Lemma replaceAll_append c by_ s t :
  replaceAll c by_ (s +:+ t) = replaceAll c by_ s +:+ replaceAll c by_ t.
Proof.
  induction s as [|a s IH]; [done|]. rewrite append_cons. simpl.
  destruct (Ascii.eqb a c); by rewrite IH, ?append_assoc.
Qed.

Lemma replaceAll_hit c by_ s :
  replaceAll c by_ (String c s) = by_ +:+ replaceAll c by_ s.
Proof. simpl. by rewrite Ascii.eqb_refl. Qed.

Lemma replaceAll_miss c by_ a s :
  a ≠ c → replaceAll c by_ (String a s) = String a (replaceAll c by_ s).
Proof. intros Ha%Ascii.eqb_neq. simpl. by rewrite Ha. Qed.

Lemma esc_escapeOnce s : esc s = escapeOnce kmlEntity s.
Proof.
  unfold esc. induction s as [|c s IH]; [done|]. cbn [escapeOnce].
  destruct (kmlEntity_cases c) as [[-> ->]|[[-> ->]|[[-> ->]|[-> [Ha [Hl Hg]]]]]].
  - rewrite replaceAll_hit, !replaceAll_append, IH. done.
  - rewrite (replaceAll_miss "&") by done.
    rewrite replaceAll_hit, !replaceAll_append, IH. done.
  - rewrite (replaceAll_miss "&"), (replaceAll_miss "<") by done.
    rewrite replaceAll_hit, IH. done.
  - by rewrite !replaceAll_miss, IH.
Qed.

Lemma occurs_escapeOnce (entity : ascii → option string) (x : ascii) s :
  entity x ≠ None →
  (∀ c e, entity c = Some e → occurs x e = false) →
  occurs x (escapeOnce entity s) = false.
Proof.
  intros Hx He. induction s as [|c s IH]; simpl; [done|].
  destruct (entity c) as [e|] eqn:Hc.
  - by rewrite occurs_append, (He c e), IH.
  - simpl. rewrite IH, orb_false_r. apply Ascii.eqb_neq. by intros ->.
Qed.

End EscapingResults.


Section KmlColor.

Lemma readEntity_htmlEntity c e s :
  htmlEntity c = Some e → readEntity htmlEntities (e +:+ s) = Some (c, s).
Proof.
  destruct (htmlEntity_cases c) as [[-> ->]|[[-> ->]|[[-> ->]|[[-> ->]|[[-> ->]|[-> _]]]]]];
    by intros [= <-].
Qed.

Lemma readEntity_kmlEntity c e s :
  kmlEntity c = Some e → readEntity kmlEntities (e +:+ s) = Some (c, s).
Proof.
  destruct (kmlEntity_cases c) as [[-> ->]|[[-> ->]|[[-> ->]|[-> _]]]];
    by intros [= <-].
Qed.

Lemma isHexDigit_upperChar c : isHexDigit c = true → isHexDigit (upperChar c) = true.
Proof. destruct c as [[] [] [] [] [] [] [] []]; by vm_compute. Qed.

Lemma allHex_append s t : allHex (s +:+ t) = allHex s && allHex t.
Proof.
  induction s as [|c s IH]; [done|]. rewrite append_cons. simpl.
  by rewrite IH, andb_assoc.
Qed.

Lemma allHex_toUpperCase s : allHex s = true → allHex (toUpperCase s) = true.
Proof.
  induction s as [|c s IH]; simpl; [done|].
  intros [Hc Hs]%andb_prop. by rewrite isHexDigit_upperChar, IH.
Qed.

Lemma length_toUpperCase s : String.length (toUpperCase s) = String.length s.
Proof. induction s as [|c s IH]; simpl; [done|]. by rewrite IH. Qed.

Lemma hexGroupsAtStart_hex s r g b :
  hexGroupsAtStart s = Some (r, g, b) →
  allHex (b +:+ g +:+ r) = true ∧ String.length (b +:+ g +:+ r) = 6.
Proof.
  unfold hexGroupsAtStart.
  destruct s as [|r1 [|r2 [|g1 [|g2 [|b1 [|b2 s]]]]]]; try done.
  destruct (forallb isHexDigit [r1; r2; g1; g2; b1; b2]) eqn:Hh; [|done].
  intros [= <- <- <-]. split; [|done].
  simpl in Hh. repeat (apply andb_prop in Hh as [? Hh]).
  cbv [String.append allHex]. by repeat (apply andb_true_intro; split).
Qed.

Lemma matchHexGroups_hex s r g b :
  matchHexGroups s = Some (r, g, b) →
  allHex (b +:+ g +:+ r) = true ∧ String.length (b +:+ g +:+ r) = 6.
Proof.
  induction s as [|c s IH]; [done|].
  cbn [matchHexGroups].
  destruct (hexGroupsAtStart (String c s)) as [[[r' g'] b']|] eqn:Hs.
  - intros [= -> -> ->]. by apply (hexGroupsAtStart_hex (String c s)).
  - apply IH.
Qed.

End KmlColor.

(** ** The three tools on one portal *)

Section Tools.

(** What [routePoint] keeps: a portal with properties whose [location] is an
    object carrying two numbers. *)
Lemma routePoint_truthy p :
  truthy (routePoint p) = true →
  nullish p = false
  ∧ truthy (prop "location" p) = true
  ∧ typeofNumber (prop "latitude" (prop "location" p)) = true
  ∧ typeofNumber (prop "longitude" (prop "location" p)) = true
  ∧ prop "lat" (routePoint p) = prop "latitude" (prop "location" p)
  ∧ prop "lon" (routePoint p) = prop "longitude" (prop "location" p).
Proof.
  unfold routePoint, optionalGet.
  destruct (nullish p) eqn:Hp; [done|].
  destruct (nullish (prop "location" p)) eqn:Hl; [done|].
  destruct (typeofNumber (prop "latitude" (prop "location" p))) eqn:Ha; [|done].
  destruct (typeofNumber (prop "longitude" (prop "location" p))) eqn:Hb; [|done].
  intros _. split; [done|]. split; [by destruct (prop "location" p)|].
  split; [done|]. split; [done|]. split.
  - simpl. by rewrite lookup_insert_eq.
  - simpl. rewrite lookup_insert_ne by done. by rewrite lookup_singleton_eq.
Qed.

(** The outcome of the normalizer on a document that is not a feature
    collection and makes it raise nothing. *)
Lemma extractFeatures_by_shape json fs :
  collectionShape json = false → extractFeatures json = Ok fs →
  (pointListShape json = true ∧ ∃ elems, json = VArr elems ∧ fs = pointFeature <$> elems)
  ∨ (pointListShape json = false ∧ ∃ ms, fs = omap featureAt (rowMajor ms)).
Proof.
  intros Hc He.
  destruct (safeInput json) eqn:Hs; [|by rewrite extractFeatures_unsafe in He].
  destruct (pointListShape json) eqn:Hp.
  - left. split; [done|]. destruct json as [| | | | |[|x rest]|]; try done.
    exists (x :: rest). split; [done|].
    unfold safeInput in Hs. rewrite Hc in Hs. simpl in Hs, Hp.
    rewrite Hp in Hs. simpl in Hs.
    apply andb_prop in Hs as [Hx Hrest]. apply negb_true_iff in Hx.
    rewrite extractFeatures_array, isPointList_head, Hp in He by done.
    cbn [JS.bind] in He. rewrite forEach_pushPoint in He; [by injection He as <-|].
    simpl. by rewrite Hx.
  - right. split; [done|].
    destruct (prop "missions" json) as [| | | | |ms|] eqn:Hm;
      try (rewrite extractFeatures_no_missions in He by (by rewrite ?Hm);
           injection He as <-; by exists []).
    rewrite (extractFeatures_nested json ms Hc Hm) in He.
    destruct (forallb walkableMission ms); [|done].
    injection He as <-. by exists ms.
Qed.

Lemma elem_of_omap_featureAt f (ts : list (nat * nat * value)) :
  f ∈ omap featureAt ts →
  ∃ mi pi p lng lat,
    resolvedCoordinates p = Some (lng, lat)
    ∧ f = feature (portalTitle mi pi p) lng lat.
Proof.
  intros [[[mi pi] p] [_ Hf]]%list_elem_of_omap.
  unfold featureAt, portalFeature in Hf.
  destruct (resolvedCoordinates p) as [[lng lat]|] eqn:Hr; [|done].
  simpl in Hf. injection Hf as <-. by exists mi, pi, p, lng, lat.
Qed.

End Tools.

(** ** Placeholder titles *)

Section Placeholder.

Lemma pretty_N_go_no_dash x s :
  occurs "-" s = false → occurs "-" (pretty_N_go x s) = false.
Proof.
  revert s. induction (N.lt_wf_0 x) as [x _ IH]; intros s Hs.
  assert (x = 0 ∨ 0 < x)%N as [->|Hx] by lia.
  - by rewrite pretty_N_go_0.
  - rewrite pretty_N_go_step by done. apply IH.
    { by apply N.div_lt. }
    simpl. rewrite Hs, orb_false_r. unfold pretty_N_char. by repeat case_match.
Qed.

Lemma pretty_nat_no_dash (n : nat) : occurs "-" (pretty n) = false.
Proof.
  unfold pretty, pretty_nat, pretty, pretty_N.
  case_decide; [done|]. by apply pretty_N_go_no_dash.
Qed.

(** Two texts cut at their first dash. *)
Lemma split_at_dash a a' b b' :
  occurs "-" a = false → occurs "-" a' = false →
  a +:+ "-" +:+ b = a' +:+ "-" +:+ b' → a = a' ∧ b = b'.
Proof.
  revert a'. induction a as [|c a IH]; intros [|c' a'] Ha Ha' Heq.
  - by injection Heq.
  - injection Heq as Hc _. subst c'. by simpl in Ha'.
  - injection Heq as Hc _. subst c. by simpl in Ha.
  - injection Heq as -> Heq. simpl in Ha, Ha'.
    apply orb_false_elim in Ha as [_ Ha]. apply orb_false_elim in Ha' as [_ Ha'].
    destruct (IH a' Ha Ha' Heq) as [-> ->]. done.
Qed.

End Placeholder.

(** ** The CSV text *)

Section CsvReading.

Lemma readFrom_append s t r : readFrom (s +:+ t) r = readFrom s r ≫= readFrom t.
Proof.
  revert r. induction s as [|c s IH]; intros r; [done|].
  rewrite append_cons. simpl. destruct (readChar c r) as [r'|]; [apply IH|done].
Qed.

Lemma append_nil_r (s : string) : s +:+ "" = s.
Proof. induction s as [|c s IH]; [done|]. by rewrite append_cons, IH. Qed.

Lemma doubleQuote_not_comma : Ascii.eqb doubleQuote "," = false.
Proof. done. Qed.

Lemma readFrom_cons c s r : readFrom (String c s) r = readChar c r ≫= readFrom s.
Proof. done. Qed.

Lemma readChar_open F R f :
  readChar doubleQuote {| finished := F; record := R; field := f; mode := FieldStart |}
  = Some {| finished := F; record := R; field := ""; mode := InField |}.
Proof. done. Qed.

Lemma readChar_close F R f :
  readChar doubleQuote {| finished := F; record := R; field := f; mode := InField |}
  = Some {| finished := F; record := R; field := f; mode := AfterQuote |}.
Proof. done. Qed.

Lemma readChar_plain c F R f :
  c ≠ doubleQuote →
  readChar c {| finished := F; record := R; field := f; mode := InField |}
  = Some {| finished := F; record := R; field := f +:+ String c ""; mode := InField |}.
Proof. intros Hc%Ascii.eqb_neq. unfold readChar. simpl. by rewrite Hc. Qed.

Lemma readChar_doubled F R f :
  readChar doubleQuote {| finished := F; record := R; field := f; mode := AfterQuote |}
  = Some {| finished := F; record := R; field := f +:+ String doubleQuote "";
            mode := InField |}.
Proof. done. Qed.

Lemma readChar_comma F R f :
  readChar "," {| finished := F; record := R; field := f; mode := AfterQuote |}
  = Some {| finished := F; record := R ++ [f]; field := ""; mode := FieldStart |}.
Proof. done. Qed.

Lemma readChar_lineFeed F R f :
  readChar lineFeed {| finished := F; record := R; field := f; mode := AfterQuote |}
  = Some {| finished := F ++ [R ++ [f]]; record := []; field := ""; mode := FieldStart |}.
Proof. done. Qed.

(** The doubled quotes of a field are read back as single ones. *)
Lemma readFrom_body text F R f :
  readFrom (replaceAll doubleQuote (String doubleQuote (String doubleQuote "")) text)
           {| finished := F; record := R; field := f; mode := InField |}
  = Some {| finished := F; record := R; field := f +:+ text; mode := InField |}.
Proof.
  revert f. induction text as [|c text IH]; intros f.
  - by rewrite append_nil_r.
  - destruct (Ascii.eqb_spec c doubleQuote) as [->|Hc].
    + rewrite replaceAll_hit, !append_cons, append_nil_l.
      rewrite readFrom_cons, readChar_close. cbn [mbind option_bind].
      rewrite readFrom_cons, readChar_doubled. cbn [mbind option_bind].
      by rewrite IH, append_assoc.
    + rewrite replaceAll_miss by done.
      rewrite readFrom_cons, readChar_plain by done. cbn [mbind option_bind].
      by rewrite IH, append_assoc.
Qed.

Lemma readFrom_quoteField text F R f :
  readFrom (quoteField text)
           {| finished := F; record := R; field := f; mode := FieldStart |}
  = Some {| finished := F; record := R; field := text; mode := AfterQuote |}.
Proof.
  unfold quoteField. rewrite readFrom_cons, readChar_open. cbn [mbind option_bind].
  rewrite readFrom_append, readFrom_body. cbn [mbind option_bind].
  by rewrite readFrom_cons, readChar_close.
Qed.

(** A line of quoted cells leaves the reader after the closing quote of the
    last cell, with all the cells read. *)
Lemma readFrom_line cells F R f :
  cells ≠ [] →
  ∃ R' fld,
    readFrom (join "," (quoteField <$> cells))
             {| finished := F; record := R; field := f; mode := FieldStart |}
    = Some {| finished := F; record := R'; field := fld; mode := AfterQuote |}
    ∧ R' ++ [fld] = R ++ cells.
Proof.
  intros Hne. revert R f. induction cells as [|x cells IH]; intros R f; [done|].
  destruct cells as [|y cells].
  - exists R, x. split; [|done]. apply readFrom_quoteField.
  - destruct (IH ltac:(done) (R ++ [x]) "") as [R' [fld [Hread Hcells]]].
    exists R', fld. split; [|by rewrite Hcells, <- app_assoc].
    change (join "," (quoteField <$> x :: y :: cells))
      with (quoteField x +:+ String "," (join "," (quoteField <$> y :: cells))).
    rewrite readFrom_append, readFrom_quoteField. cbn [mbind option_bind].
    rewrite readFrom_cons, readChar_comma. cbn [mbind option_bind].
    apply Hread.
Qed.

Lemma readFrom_table table F :
  table ≠ [] → Forall (fun r => r ≠ []) table →
  ∃ F' R' fld,
    readFrom (csvText table)
             {| finished := F; record := []; field := ""; mode := FieldStart |}
    = Some {| finished := F'; record := R'; field := fld; mode := AfterQuote |}
    ∧ F' ++ [R' ++ [fld]] = F ++ table.
Proof.
  intros Hne Hrows. revert F.
  induction table as [|r table IH]; intros F; [done|].
  apply Forall_cons in Hrows as [Hr Hrows].
  destruct (readFrom_line r F [] "" Hr) as [R' [fld [Hread Hcells]]].
  destruct table as [|r' table].
  - exists F, R', fld. split; [apply Hread|]. by rewrite Hcells.
  - destruct (IH ltac:(done) Hrows (F ++ [r])) as [F'' [R'' [fld' [Hread' Htable]]]].
    exists F'', R'', fld'. split; [|by rewrite Htable, <- app_assoc].
    unfold csvText in *.
    change (join ?sep ((fun r0 => join "," (quoteField <$> r0)) <$> r :: r' :: table))
      with (join "," (quoteField <$> r)
            +:+ String lineFeed
                  (join sep ((fun r0 => join "," (quoteField <$> r0)) <$> r' :: table))).
    rewrite readFrom_append, Hread. cbn [mbind option_bind].
    rewrite readFrom_cons, readChar_lineFeed. cbn [mbind option_bind].
    rewrite Hcells. apply Hread'.
Qed.

Lemma csvText_nonempty r table : r ≠ [] → csvText (r :: table) ≠ "".
Proof.
  intros Hr. unfold csvText. destruct r as [|x r]; [done|].
  destruct table, r; done.
Qed.

End CsvReading.

(** ** The cleaned description *)

Section Description.

Lemma rev_app_append s t : String.rev_app s t = String.rev s +:+ t.
Proof.
  unfold String.rev. revert t. induction s as [|c s IH]; intros t; [done|].
  simpl. rewrite (IH (String c t)), (IH (String c "")).
  by rewrite append_assoc.
Qed.

Lemma rev_cons c s : String.rev (String c s) = String.rev s +:+ String c "".
Proof. unfold String.rev at 1. simpl. apply rev_app_append. Qed.

Lemma rev_append s t : String.rev (s +:+ t) = String.rev t +:+ String.rev s.
Proof.
  induction s as [|c s IH]; [by rewrite append_nil_l, append_nil_r|].
  by rewrite append_cons, !rev_cons, IH, append_assoc.
Qed.

Lemma rev_involutive s : String.rev (String.rev s) = s.
Proof.
  induction s as [|c s IH]; [done|]. by rewrite rev_cons, rev_append, IH.
Qed.

Lemma length_rev s : String.length (String.rev s) = String.length s.
Proof.
  induction s as [|c s IH]; [done|].
  rewrite rev_cons, length_append, IH. simpl. lia.
Qed.

Lemma stripPrefix_Some pre s rest : stripPrefix pre s = Some rest → s = pre +:+ rest.
Proof.
  revert s. induction pre as [|a pre IH]; intros [|b s]; simpl; try done.
  - by intros [= <-].
  - by intros [= <-].
  - destruct (Ascii.eqb_spec a b) as [->|]; [|done].
    intros ->%IH. done.
Qed.

Lemma skipOne_Some class s rest :
  skipOne class s = Some rest → ∃ pre, pre ∈ class ∧ s = pre +:+ rest.
Proof.
  induction class as [|pre class IH]; simpl; [done|].
  destruct (stripPrefix pre s) as [rest'|] eqn:Hp.
  - intros [= ->]. exists pre. split; [by left|]. by apply stripPrefix_Some.
  - intros [pre' [Hin Hs]]%IH. exists pre'. split; [by right|done].
Qed.

(** What is left when no more leading character of the class can be
    dropped: a suffix of the text on which the class matches nothing. *)
Lemma dropLeading_suffix class n s :
  Forall (fun pre => pre ≠ "") class → (String.length s ≤ n)%nat →
  ∃ dropped, s = dropped +:+ dropLeading class n s
             ∧ (dropLeading class n s = "" ∨ skipOne class (dropLeading class n s) = None).
Proof.
  intros Hclass. revert s. induction n as [|n IH]; intros s Hn.
  - exists "". destruct s; [|simpl in Hn; lia]. split; [done|by left].
  - simpl. destruct (skipOne class s) as [rest|] eqn:Hs.
    + destruct (skipOne_Some _ _ _ Hs) as [pre [Hin ->]].
      assert (pre ≠ "") as Hpre.
      { rewrite Forall_forall in Hclass. by apply Hclass. }
      destruct (IH rest) as [dropped [Hrest Hend]].
      { rewrite length_append in Hn. destruct pre; [done|simpl in Hn; lia]. }
      exists (pre +:+ dropped). split; [|done].
      by rewrite append_assoc, <- Hrest.
    + exists "". split; [done|by right].
Qed.

Lemma singleSpaced_weaken b s : singleSpaced b s = true → singleSpaced false s = true.
Proof.
  destruct s as [|c s]; [done|]. simpl.
  destruct (Ascii.eqb c " "); [|done]. by intros [_ ->]%andb_prop.
Qed.

Lemma singleSpaced_suffix b x s :
  singleSpaced b (x +:+ s) = true → singleSpaced false s = true.
Proof.
  revert b. induction x as [|c x IH]; intros b; [apply singleSpaced_weaken|].
  rewrite append_cons. simpl.
  destruct (Ascii.eqb c " "); intros [_ H]%andb_prop; by apply IH in H.
Qed.

Lemma singleSpaced_prefix b s x :
  singleSpaced b (s +:+ x) = true → singleSpaced b s = true.
Proof.
  revert b. induction s as [|c s IH]; intros b; [done|].
  rewrite append_cons. simpl.
  destruct (Ascii.eqb c " "); intros [-> H]%andb_prop; by apply IH in H.
Qed.

Lemma skipOne_is_space c s :
  Ascii.is_space c = true → skipOne whiteSpace (String c s) = Some s.
Proof. destruct c as [[] [] [] [] [] [] [] []]; by intros ?. Qed.

Lemma collapseFrom_S n b s :
  collapseFrom (S n) b s
  = match skipOne whiteSpace s with
    | Some rest =>
        if b then collapseFrom n true rest else " " +:+ collapseFrom n true rest
    | None =>
        match s with
        | EmptyString => ""
        | String c rest => String c (collapseFrom n false rest)
        end
    end.
Proof. done. Qed.

Lemma collapseFrom_singleSpaced n b s :
  singleSpaced b (collapseFrom n b s) = true.
Proof.
  revert b s. induction n as [|n IH]; intros b s; [done|].
  rewrite collapseFrom_S.
  destruct (skipOne whiteSpace s) as [rest|] eqn:Hs.
  - destruct b; [apply IH|].
    change (singleSpaced false (String " " (collapseFrom n true rest)) = true).
    cbn [singleSpaced]. rewrite Ascii.eqb_refl. apply IH.
  - destruct s as [|c s]; [done|]. cbn [singleSpaced].
    destruct (Ascii.is_space c) eqn:Hc; [by rewrite skipOne_is_space in Hs|].
    destruct (Ascii.eqb_spec c " ") as [->|]; [done|]. apply IH.
Qed.

End Description.

(** ** Properties of the page script *)

(** X1: the placeholder titles of two portals are equal only if the portals
    have the same mission index and the same position in it. *)
Theorem placeholder_titles_are_distinct mi pi mi' pi' :
  placeholderTitle mi pi = placeholderTitle mi' pi' → mi = mi' ∧ pi = pi'.
Proof.
  unfold placeholderTitle. intros Heq%(inj (String.app "Portal ")).
  apply split_at_dash in Heq as [Hm Hp]; [|apply pretty_nat_no_dash..].
  apply (inj pretty) in Hm, Hp. lia.
Qed.

Lemma placeholder_titles_are_distinct_witness : 11 = 11 ∧ 0 = 0.
Proof. apply (placeholder_titles_are_distinct 11 0 11 0). reflexivity. Defined.

(** X2: on an input that is not a feature collection, every feature that
    extractFeatures returns is a GeoJSON point feature: its [type] is
    "Feature", its geometry has [type] "Point" and a [coordinates] array of
    exactly two elements. *)
Theorem emitted_features_are_point_features json fs f :
  collectionShape json = false → extractFeatures json = Ok fs → f ∈ fs →
  prop "type" f = VStr "Feature"
  ∧ prop "type" (prop "geometry" f) = VStr "Point"
  ∧ ∃ lng lat, prop "coordinates" (prop "geometry" f) = VArr [lng; lat].
Proof.
  intros Hc He Hf.
  assert (∃ title lng lat, f = feature title lng lat) as [title [lng [lat ->]]].
  { destruct (extractFeatures_by_shape json fs Hc He)
      as [[_ [elems [_ ->]]]|[_ [ms ->]]].
    - apply list_elem_of_fmap in Hf as [p [-> _]]. unfold pointFeature. eauto.
    - apply elem_of_omap_featureAt in Hf as [mi [pi [p [lng [lat [_ ->]]]]]]. eauto. }
  split; [by vm_compute|]. split; [by vm_compute|].
  exists lng, lat. apply feature_coordinates.
Qed.

Lemma emitted_features_are_point_features_witness :
  prop "type" (feature (VStr "") VUndef (num 1)) = VStr "Feature"
  ∧ prop "type" (prop "geometry" (feature (VStr "") VUndef (num 1))) = VStr "Point"
  ∧ ∃ lng lat,
      prop "coordinates" (prop "geometry" (feature (VStr "") VUndef (num 1)))
      = VArr [lng; lat].
Proof.
  apply (emitted_features_are_point_features pointsWithoutLongitude
           [feature (VStr "") VUndef (num 1)]);
    [by vm_compute|by vm_compute|by left].
Defined.

(** X3: on a document with a [missions] array that is not a feature
    collection, extractFeatures never returns more features than the
    document has portals. *)
Theorem nested_output_never_exceeds_portals json ms fs :
  collectionShape json = false → prop "missions" json = VArr ms →
  extractFeatures json = Ok fs →
  (length fs ≤ length (rowMajor ms))%nat.
Proof.
  intros Hc Hm He. rewrite (extractFeatures_nested json ms Hc Hm) in He.
  destruct (forallb walkableMission ms); [|done]. injection He as <-.
  generalize (rowMajor ms). intros ts.
  induction ts as [|t ts IH]; [done|].
  change (omap featureAt (t :: ts)) with
    (match featureAt t with Some y => y :: omap featureAt ts | None => omap featureAt ts end).
  destruct (featureAt t); simpl; lia.
Qed.

Lemma nested_output_never_exceeds_portals_witness :
  (length [ feature (VStr "Portal 1-1") (num 2) (num 1);
            feature (VStr "Named") (num 4) (num 3);
            feature (VStr "Portal 2-1") (num 5) (num 6) ]
   ≤ length (rowMajor [ missionOf [portalByLatitude; portalEmpty; portalByLat];
                        missionOf [portalStaleLocation] ]))%nat.
Proof.
  apply (nested_output_never_exceeds_portals nestedDocument); by vm_compute.
Defined.

(** X4: on a document with a [missions] array that is not a feature
    collection and whose missions can all be walked, the script stops with
    the message that no points were found exactly when no portal of the
    document has resolvable coordinates. *)
Theorem buildMap_no_points_iff json ms :
  collectionShape json = false → prop "missions" json = VArr ms →
  forallb walkableMission ms = true →
  buildMap json = Ok NoPoints
  ↔ Forall (fun t => resolvedCoordinates t.2 = None) (rowMajor ms).
Proof.
  intros Hc Hm Hw. unfold buildMap.
  rewrite (extractFeatures_nested json ms Hc Hm), Hw. cbn [JS.bind].
  generalize (rowMajor ms). intros ts.
  assert (omap featureAt ts = [] ↔ Forall (fun t => resolvedCoordinates t.2 = None) ts)
    as <-.
  { induction ts as [|[[mi pi] p] ts IH]; [done|].
    change (omap featureAt ((mi, pi, p) :: ts)) with
      (match featureAt (mi, pi, p) with
       | Some y => y :: omap featureAt ts
       | None => omap featureAt ts
       end).
    rewrite Forall_cons, <- IH. unfold featureAt, portalFeature. simpl.
    destruct (resolvedCoordinates p) as [[lng lat]|]; simpl; [|tauto].
    split; [done|]. by intros [? _]. }
  destruct (omap featureAt ts); simpl; [done|]. split; done.
Qed.

Lemma buildMap_no_points_iff_witness :
  buildMap (documentOf [missionOf [portalEmpty]]) = Ok NoPoints.
Proof.
  apply (buildMap_no_points_iff (documentOf [missionOf [portalEmpty]])
           [missionOf [portalEmpty]]); [by vm_compute..|].
  by repeat constructor.
Defined.

(** X6: the text escapeHtml returns holds no angle bracket, no double quote
    and no apostrophe. *)
Theorem escapeHtml_keeps_no_markup_character s :
  occurs "<" (escapeHtml s) = false
  ∧ occurs ">" (escapeHtml s) = false
  ∧ occurs doubleQuote (escapeHtml s) = false
  ∧ occurs "'" (escapeHtml s) = false.
Proof.
  rewrite escapeHtml_escapeOnce.
  repeat split; apply occurs_escapeOnce; try done;
    intros c e He;
    destruct (htmlEntity_cases c) as [[_ H]|[[_ H]|[[_ H]|[[_ H]|[[_ H]|[H _]]]]]];
    rewrite H in He; by simplify_eq.
Qed.

(** X7: escapeHtml loses nothing: replacing the five entities of its result
    by their characters gives the text back, whatever ampersands and
    entity-like sequences the text held. *)
Theorem escapeHtml_round_trip s : unescape htmlEntities (escapeHtml s) = s.
Proof.
  rewrite escapeHtml_escapeOnce. apply unescape_escapeOnce.
  - apply readEntity_htmlEntity.
  - intros c. by destruct (htmlEntity_cases c)
      as [[_ ->]|[[_ ->]|[[_ ->]|[[_ ->]|[[_ ->]|[-> _]]]]]].
  - intros c Hc. destruct (htmlEntity_cases c)
      as [[_ H]|[[_ H]|[[_ H]|[[_ H]|[[_ H]|[_ [H _]]]]]]]; congruence.
  - repeat constructor; by eexists.
Qed.

(** ** Properties of the CSV converter, continued *)

(** X8: every row the converter builds has seven cells, as many as the
    header. *)
Theorem rows_are_seven_wide data table :
  rows data = Ok table → Forall (fun r => length r = 7) table.
Proof.
  rewrite rows_rowMajor. destruct (rowableDocument data); [|done].
  intros [= <-]. constructor; [done|].
  apply Forall_fmap, Forall_forall. by intros [[mi pi] p] _.
Qed.

Lemma rows_are_seven_wide_witness :
  Forall (fun r => length r = 7)
    [ header; [num 1; num 1; VStr ""; VStr ""; VStr ""; VStr ""; VStr ""] ].
Proof.
  apply (rows_are_seven_wide (documentOf [missionOf [portalEmpty]])).
  by vm_compute.
Defined.

(** X9: the description cell holds no tab, line feed, vertical tab, form
    feed or carriage return, no two spaces in a row, and neither starts nor
    ends with a space. *)
Theorem cleaned_description_is_single_spaced s :
  singleSpaced true (trim (collapseWhiteSpace s)) = true
  ∧ stripPrefix " " (String.rev (trim (collapseWhiteSpace s))) = None.
Proof.
  unfold trim, collapseWhiteSpace.
  set (s0 := collapseFrom (String.length s) false s).
  assert (H0 : singleSpaced false s0 = true) by apply collapseFrom_singleSpaced.
  set (s1 := dropLeading whiteSpace (String.length s0) s0).
  destruct (dropLeading_suffix whiteSpace (String.length s0) s0)
    as [d1 [Hs1 Hend1]]; [by repeat constructor|done|]. fold s1 in Hs1, Hend1.
  assert (H1 : singleSpaced true s1 = true).
  { rewrite Hs1 in H0. apply singleSpaced_suffix in H0.
    destruct s1 as [|c r]; [done|]. destruct Hend1 as [|Hend1]; [done|].
    cbn [singleSpaced] in *. destruct (Ascii.eqb_spec c " ") as [->|]; [|done].
    by rewrite skipOne_is_space in Hend1. }
  set (t := dropLeading (String.rev <$> whiteSpace) (String.length s1) (String.rev s1)).
  destruct (dropLeading_suffix (String.rev <$> whiteSpace) (String.length s1) (String.rev s1))
    as [d2 [Ht Hend2]]; [by repeat constructor|by rewrite length_rev|].
  fold t in Ht, Hend2. rewrite rev_involutive. split.
  - apply (f_equal String.rev) in Ht. rewrite rev_involutive, rev_append in Ht.
    rewrite Ht in H1. by apply singleSpaced_prefix in H1.
  - destruct t as [|c r]; [done|]. destruct Hend2 as [|Hend2]; [done|].
    cbn [stripPrefix]. destruct (Ascii.eqb_spec " " c) as [<-|]; [|done].
    by vm_compute in Hend2.
Qed.

(** X10: the text written to the file reads back as the table of cell texts
    it was built from, whatever commas, quotes and line feeds the cells
    hold, provided no row is empty. *)
Theorem csv_text_reads_back table :
  Forall (fun r => r ≠ []) table → readCsv (csvText table) = Some table.
Proof.
  intros Hrows. destruct table as [|r table]; [done|].
  pose proof (Forall_inv Hrows) as Hr.
  destruct (readFrom_table (r :: table) [] ltac:(done) Hrows)
    as [F' [R' [fld [Hread Htable]]]].
  unfold readCsv. destruct (csvText (r :: table)) eqn:Htext;
    [by destruct (csvText_nonempty r table Hr)|].
  rewrite Hread. cbn [mbind option_bind mode]. unfold closeField.
  cbn [finished record field]. by rewrite Htable.
Qed.

Lemma csv_text_reads_back_witness :
  readCsv (csvText [["a,b"; String doubleQuote "q"]; ["x"; String lineFeed ""]])
  = Some [["a,b"; String doubleQuote "q"]; ["x"; String lineFeed ""]].
Proof. apply csv_text_reads_back. by repeat constructor. Defined.

(** ** Properties of the KML converter *)

(** X11: the three replacements of esc, made one after the other, amount to
    one pass that replaces each ampersand and angle bracket of the text
    once: the ampersands of the entities it writes are not escaped again. *)
Theorem esc_is_one_pass s : esc s = escapeOnce kmlEntity s.
Proof. apply esc_escapeOnce. Qed.

(** X12: esc loses nothing: replacing the three entities of its result by
    their characters gives the text back. *)
Theorem esc_round_trip s : unescape kmlEntities (esc s) = s.
Proof.
  rewrite esc_escapeOnce. apply unescape_escapeOnce.
  - apply readEntity_kmlEntity.
  - intros c. by destruct (kmlEntity_cases c) as [[_ ->]|[[_ ->]|[[_ ->]|[-> _]]]].
  - intros c Hc. destruct (kmlEntity_cases c)
      as [[_ H]|[[_ H]|[[_ H]|[_ [H _]]]]]; congruence.
  - repeat constructor; by eexists.
Qed.

(** X13: the text esc returns holds no angle bracket. *)
Theorem esc_keeps_no_angle_bracket s :
  occurs "<" (esc s) = false ∧ occurs ">" (esc s) = false.
Proof.
  rewrite esc_escapeOnce.
  split; apply occurs_escapeOnce; try done;
    intros c e He;
    destruct (kmlEntity_cases c) as [[_ H]|[[_ H]|[[_ H]|[H _]]]];
    rewrite H in He; by simplify_eq.
Qed.

(** X14: for a colour written #RRGGBB, followed by anything, and an alpha
    made of ASCII characters, kmlColor returns the alpha then BB, GG and
    RR, in upper case. *)
Theorem kmlColor_reverses_channels r1 r2 g1 g2 b1 b2 rest alpha :
  allAscii alpha = true →
  forallb isHexDigit [r1; r2; g1; g2; b1; b2] = true →
  kmlColor (String "#" (String r1 (String r2 (String g1 (String g2
              (String b1 (String b2 rest))))))) alpha
  = toUpperCase (alpha +:+ String b1 (String b2 (String g1 (String g2
                             (String r1 (String r2 "")))))).
Proof.
  intros _ Hhex. unfold kmlColor. cbn [removeFirst]. rewrite Ascii.eqb_refl.
  cbn [matchHexGroups hexGroupsAtStart]. by rewrite Hhex.
Qed.

Lemma kmlColor_reverses_channels_witness :
  kmlColor "#e6194b;" "cc" = "CC4B19E6".
Proof.
  apply (kmlColor_reverses_channels "e" "6" "1" "9" "4" "b" ";" "cc");
    reflexivity.
Defined.

(** X15: whatever text it is given for the colour, kmlColor returns eight
    hexadecimal digits when the alpha is made of two. *)
Theorem kmlColor_is_eight_hex_digits rgb alpha :
  allHex alpha = true → String.length alpha = 2 →
  allHex (kmlColor rgb alpha) = true ∧ String.length (kmlColor rgb alpha) = 8.
Proof.
  intros Hhex Hlen. unfold kmlColor.
  destruct (matchHexGroups (removeFirst "#" rgb)) as [[[r g] b]|] eqn:Hm.
  - apply matchHexGroups_hex in Hm as [Hgroups Hlen'].
    rewrite length_toUpperCase, length_append, Hlen, Hlen'. split; [|done].
    apply allHex_toUpperCase. by rewrite allHex_append, Hhex, Hgroups.
  - rewrite length_append, Hlen, allHex_append, Hhex. done.
Qed.

Lemma kmlColor_is_eight_hex_digits_witness :
  allHex (kmlColor "no colour" "FF") = true
  ∧ String.length (kmlColor "no colour" "FF") = 8.
Proof. apply kmlColor_is_eight_hex_digits; reflexivity. Defined.

(** X16: for every mission index the palette lookup finds a colour of the
    form #RRGGBB, and its two KML colours are FF and CC followed by BB, GG
    and RR: the white fallback is never used for a mission. *)
Theorem mission_colors_come_from_palette i :
  ∃ r1 r2 g1 g2 b1 b2,
    let rgb := String "#" (String r1 (String r2 (String g1 (String g2
                 (String b1 (String b2 "")))))) in
    let bgr := String b1 (String b2 (String g1 (String g2 (String r1 (String r2 ""))))) in
    missionColor i = Some rgb
    ∧ kmlColor rgb "FF" = "FF" +:+ bgr
    ∧ kmlColor rgb "CC" = "CC" +:+ bgr.
Proof.
  unfold missionColor.
  destruct (lookup_lt_is_Some_2 PALETTE (i mod length PALETTE)) as [rgb Hrgb].
  { apply Nat.mod_upper_bound. done. }
  assert (Hall : Forall (fun c => paletteEntryOk c = true) PALETTE)
    by (by repeat constructor).
  rewrite Forall_lookup in Hall. specialize (Hall _ _ Hrgb).
  rewrite Hrgb. unfold paletteEntryOk in Hall.
  destruct rgb as [|h [|r1 [|r2 [|g1 [|g2 [|b1 [|b2 [|]]]]]]]]; try done.
  apply andb_prop in Hall as [[Hh Hff]%andb_prop Hcc].
  apply Ascii.eqb_eq in Hh as ->. apply String.eqb_eq in Hff, Hcc.
  by exists r1, r2, g1, g2, b1, b2.
Qed.

(** ** The tools compared *)

(** X17: every portal that the KML route keeps yields a map feature, with
    the same longitude and latitude. *)
Theorem route_point_is_map_feature mi p pi features :
  truthy (routePoint p) = true →
  pushPortal mi p pi features
  = Ok (features ++ [feature (portalTitle mi pi p)
                             (prop "lon" (routePoint p))
                             (prop "lat" (routePoint p))]).
Proof.
  intros [Hp [Hloc [Hlat [Hlon [-> ->]]]]]%routePoint_truthy.
  rewrite pushPortal_feature by done.
  unfold portalFeature, resolvedCoordinates, locationSource, numericPair.
  by rewrite Hloc, Hlat, Hlon.
Qed.

Lemma route_point_is_map_feature_witness :
  pushPortal 0 portalByLatitude 0 []
  = Ok ([] ++ [feature (portalTitle 0 0 portalByLatitude)
                       (prop "lon" (routePoint portalByLatitude))
                       (prop "lat" (routePoint portalByLatitude))]).
Proof. apply route_point_is_map_feature. reflexivity. Defined.


